(** * availability_grade.py: the scraping orchestrator

    A shallow embedding of [src/availability_grade.py]: the chunker, the
    per-target worker [scrape_one] with its retry loop, the block
    classification and recovery routines, the extraction helpers, and the
    semaphore discipline of concurrently running workers.

    Conventions.
    - A Python [str] is the list of its Unicode code points ([pystr]).
    - A call into the browser driver, the OCR solver or the event loop is
      answered by the environment: each such call has a [reply] that either
      returns a value or raises an exception.  A worker is a program in the
      monad [M], which threads the local variable [context] and the trace of
      calls issued so far.
    - [BrowserContext.close()], [logger.*] and [asyncio.sleep] are total:
      they are recorded in the trace and never raise.  Task cancellation
      ([CancelledError], a [BaseException]) is outside the model. *)

From Stdlib Require Import ZArith QArith Lia List String Ascii Bool.
From stdpp Require Import base list gmap strings fin_maps.
Import ListNotations.

Local Open Scope Z_scope.

(** ** Python strings and the two alternation patterns *)

Module PyStr.

Definition pystr := list N.

(** The code points of an ASCII literal. *)
Definition cp (s : string) : pystr :=
  map N_of_ascii (list_ascii_of_string s).

(** [sre_fold c]: the representative of [c] under the case-insensitive
    comparison that [re.IGNORECASE] performs on a [str] pattern, for the
    classes of the ASCII letters and of Latin-1: [A-Z] and the Latin-1
    capitals go to their small letters; U+0130, U+0131 are in the class of
    [i], U+017F in the class of [s], U+212A in the class of [k]. *)
Definition sre_fold (c : N) : N :=
  if ((65 <=? c) && (c <=? 90))%N then (c + 32)%N
  else if ((192 <=? c) && (c <=? 222) && negb (c =? 215))%N then (c + 32)%N
  else if ((c =? 304) || (c =? 305))%N then 105%N
  else if (c =? 383)%N then 115%N
  else if (c =? 8490)%N then 107%N
  else c.

Fixpoint starts_with (eqc : N -> N -> bool) (p s : pystr) : bool :=
  match p, s with
  | [], _ => true
  | _ :: _, [] => false
  | a :: p', b :: s' => eqc a b && starts_with eqc p' s'
  end.

(** [search eqc p s]: does the literal [p] occur in [s], scanning the start
    positions from left to right as [re.search] does. *)
Fixpoint search (eqc : N -> N -> bool) (p s : pystr) : bool :=
  starts_with eqc p s ||
  match s with
  | [] => false
  | _ :: s' => search eqc p s'
  end.

(** A pattern character (written in lower case) against a subject
    character under [re.IGNORECASE]. *)
Definition ieq (a b : N) : bool := (sre_fold a =? sre_fold b)%N.

(** [re.compile("a1|a2|...", re.IGNORECASE).search(s)] as a truth value,
    for literal alternatives. *)
Definition re_search_icase (alts : list pystr) (s : pystr) : bool :=
  existsb (fun p => search ieq p s) alts.

(** [needle in s] *)
Definition contains (needle s : pystr) : bool := search N.eqb needle s.

(** [s.replace(',', '.')] *)
Definition replace_comma_dot (s : pystr) : pystr :=
  map (fun c => if (c =? 44)%N then 46%N else c) s.

End PyStr.
Export PyStr.

(** Line 52 *)
Definition CAPTCHA_RE : list pystr :=
  [ cp "captcha"; cp "robot"; cp "verify"; cp "attention";
    cp "v" ++ [233%N] ++ cp "rification" ].

(** Line 53 *)
Definition NOT_FOUND_RE : list pystr :=
  [ cp "page introuvable";
    cp "page non trouv" ++ [233%N] ++ cp "e";
    cp "not found";
    cp "ne peut pas trouver cette page";
    cp "d" ++ [233%N] ++ cp "sol" ++ [233%N] ].

(** ** Parsed documents

    [BeautifulSoup(html, "html.parser")] is the driver's and the parser's
    business; the embedding sees a page source through what the code asks
    of its parse: the [action] attributes of its [form] elements, the [src]
    attributes of its [img] elements (both in document order), and
    [select_one]. *)

#[local] Unset Elimination Schemes.
Inductive Tag : Type :=
  mkTag { get_text_strip : pystr;              (* get_text(strip=True) *)
          tag_attr : string -> option pystr;   (* has_attr / [] *)
          tag_select_one : string -> option Tag }.
#[local] Set Elimination Schemes.

Record Html : Type :=
  mkHtml { form_actions : list pystr;
           img_srcs : list pystr;
           select_one : string -> option Tag }.

(** Lines 151-159 *)
Definition is_page_blocked (html : Html) (page_title : pystr) : bool :=
  if re_search_icase CAPTCHA_RE page_title then true
  else
    let soup := html in
    if existsb (re_search_icase [cp "validateCaptcha"]) (form_actions soup) then true
    else if existsb (re_search_icase [cp "/captcha/"]) (img_srcs soup) then true
    else false.

(** ** Values, result records and the external conversions *)

(** What a cell of a result record can hold.  [VFloat q] is the finite
    binary64 value [q]; [VNone] is Python's [None]. *)
Inductive pyval : Type :=
| VStr (s : pystr)
| VFloat (q : Q)
| VInt (z : Z)
| VNone.

(** A result record is a [dict] with [str] keys. *)
Abbreviation record := (gmap string pyval).

Definition RESULT_KEYS : list string :=
  ["availability"; "average_stars"; "total_reviews"]%string.

(** [{k: v for k in ("availability", "average_stars", "total_reviews")}] *)
Definition dict_all (v : pyval) : record :=
  list_to_map (map (fun k => (k, v)) RESULT_KEYS).

(** [{"availability": a, "average_stars": s, "total_reviews": r}] *)
Definition dict_result (a s r : pyval) : record :=
  <["availability"%string := a]>
    (<["average_stars"%string := s]> (<["total_reviews"%string := r]> ∅)).

Definition S_NA : pystr := cp "N/A".
Definition S_NOT_FOUND : pystr := cp "Page n'existe pas".
Definition S_ERROR : pystr := cp "Error".
Definition S_NO_RATING : pystr := cp "Produit avec aucune note".

(** The library functions that [extract_reviews_info] calls on page text:
    the two numeric patterns of lines 104 and 114 (the text of group 1 of
    the leftmost match, if any), [re.sub(r'\D', '', .)], and the
    conversions [float] and [int] ([None] for [ValueError]). *)
Class PyLib : Type :=
  { re_search_stars_title : pystr -> option pystr;
    re_search_number : pystr -> option pystr;
    re_sub_non_digits : pystr -> pystr;
    py_float : pystr -> option Q;
    py_int : pystr -> option Z }.

(** ** Lines 77-130: the extraction helpers *)

Definition selectors_to_try : list string :=
  [ "#availability .a-color-success";
    "#availability .a-color-error";
    "#availability > span:first-of-type";
    "#desktop_buybox_feature_div #availability span";
    "#fodcx_feature_div #fod-cx-message-with-learn-more span:first-child";
    "#mir-layout-DELIVERY_BLOCK-slot-PRIMARY_DELIVERY_MESSAGE_LARGE";
    "#outOfStock span.a-color-price";
    "#outOfStockBuyBox_feature_div span.a-color-price" ]%string.

Definition nonempty (s : pystr) : bool :=
  match s with [] => false | _ => true end.

Fixpoint first_availability (soup : Html) (sels : list string) : pystr :=
  match sels with
  | [] => S_NA
  | selector :: rest =>
      match select_one soup selector with
      | Some element =>
          let text := get_text_strip element in
          if nonempty text then
            if contains (cp "Lire la suite") text
            then first_availability soup rest
            else text
          else first_availability soup rest
      | None => first_availability soup rest
      end
  end.

Definition extract_availability (soup : Html) : pystr :=
  first_availability soup selectors_to_try.

Definition is_no_rating (v : pyval) : bool :=
  match v with
  | VStr s => if decide (s = S_NO_RATING) then true else false
  | _ => false
  end.

Section Extraction.
Context {L : PyLib}.

(** Lines 102-109 *)
Definition stars_from_popover (reviews_section : Tag) (stars : pyval) : pyval :=
  match tag_select_one reviews_section "#acrPopover" with
  | Some popover =>
      match tag_attr popover "title" with
      | Some title =>
          match re_search_stars_title (replace_comma_dot title) with
          | Some g1 =>
              match py_float g1 with
              | Some f => VFloat f
              | None => stars
              end
          | None => stars
          end
      | None => stars
      end
  | None => stars
  end.

(** Lines 111-119 *)
Definition stars_from_icon (reviews_section : Tag) (stars : pyval) : pyval :=
  if is_no_rating stars then
    match tag_select_one reviews_section "span.a-icon-alt" with
    | Some star_span =>
        let text := get_text_strip star_span in
        if nonempty text then
          match re_search_number (replace_comma_dot text) with
          | Some g1 =>
              match py_float g1 with
              | Some f => VFloat f
              | None => stars
              end
          | None => stars
          end
        else stars
    | None => stars
    end
  else stars.

(** Lines 121-128 *)
Definition reviews_from_text (reviews_section : Tag) (reviews_count : pyval) : pyval :=
  match tag_select_one reviews_section "#acrCustomerReviewText" with
  | Some review_text_element =>
      let text := get_text_strip review_text_element in
      if nonempty text then
        let digits := re_sub_non_digits text in
        if nonempty digits then
          match py_int digits with
          | Some n => VInt n
          | None => reviews_count
          end
        else reviews_count
      else reviews_count
  | None => reviews_count
  end.

Definition extract_reviews_info (soup : Html) : pyval * pyval :=
  let stars := VStr S_NO_RATING in
  let reviews_count := VStr S_NO_RATING in
  match select_one soup
          "#averageCustomerReviews_feature_div, #averageCustomerReviews" with
  | None => (stars, reviews_count)
  | Some reviews_section =>
      let stars := stars_from_popover reviews_section stars in
      let stars := stars_from_icon reviews_section stars in
      let reviews_count := reviews_from_text reviews_section reviews_count in
      (stars, reviews_count)
  end.

End Extraction.

(** ** Configuration (lines 42-47) *)

Definition CHUNK_SIZE : Z := 100.
Definition MAX_CONCURRENCY : nat := 5.
Definition WAIT_BETWEEN_REQUESTS : Z * Z := (1, 3).
Definition MAX_RETRIES : nat := 3.

(** ** Effects: exceptions, replies of the environment, traces *)

Inductive runtime_msg : Type :=
| RecoveryFailed      (* line 240 *)
| PersistentBlock.    (* line 245 *)

(** Exceptions, all of them subclasses of [Exception];
    [PlaywrightTimeoutError] is the subclass of [PlaywrightError] that
    lines 145 and 200 catch on its own. *)
Inductive exn : Type :=
| PlaywrightTimeoutError
| PlaywrightError
| RuntimeError (m : runtime_msg)
| OtherException.

Inductive reply (A : Type) : Type :=
| Returns (a : A)
| Raises (e : exn).
Arguments Returns {A} a.
Arguments Raises {A} e.

(** The awaited calls, by what is called. *)
Inductive call : Type :=
| NewContext | NewPage | StealthAsync
| Goto (url : pyval)
| PageTitle | PageContent
| ContextClose
| AcceptWaitVisible | AcceptClick | AcceptWaitHidden
| WaitForTimeout (lo hi : Z)
| ContinueIsVisible | ContinueClick
| WaitForLoadState (timeout : Z)
| CaptchaIsVisible | CaptchaGetSrc
| OcrSolve
| CaptchaFill (solution : pystr)
| SubmitClick.

Inductive log_msg : Type :=
| LCookieDetected | LCookieClosed | LCookieError
| LSimpleChallenge | LContinueFailed | LNoCaptchaImage | LCaptchaDetected
| LOcrSolution | LOcrFailed | LCaptchaSolved | LCaptchaStillBlocked
| LCaptchaTimeout
| LNavigating (attempt : nat) | LHttpStatus (status : Z) | LErrorTitle
| LBlockedDetected | LSuccess
| LAttemptFailed (attempt : nat) (e : exn) | LAllFailed.

(** One entry of a worker's trace.  A call carries the source line that
    issues it. *)
Inductive event : Type :=
| Call (line : nat) (c : call)
| Sleep (lo hi : Z)             (* asyncio.sleep(random.uniform(lo, hi)) *)
| Acquire                       (* entering [async with sem] *)
| Release                       (* leaving it *)
| Log (m : log_msg).

(** What the environment answers in one round of the recovery loop. *)
Record RoundEnv : Type :=
  { content_r : reply Html;                 (* 235 *)
    title_r : reply pystr;                  (* 236 *)
    continue_visible_r : reply bool;        (* 163 *)
    continue_click_r : reply unit;          (* 166 *)
    continue_load_r : reply unit;           (* 167 *)
    captcha_visible_r : reply bool;         (* 174 *)
    captcha_src_r : reply (option pystr);   (* 179 *)
    ocr_r : reply pystr;                    (* 181 *)
    fill_r : reply unit;                    (* 187 *)
    submit_r : reply unit;                  (* 188 *)
    post_load_r : reply unit;               (* 191 *)
    post_content_r : reply Html;            (* 192 *)
    post_title_r : reply pystr;             (* 193 *)
    settle_r : reply unit }.                (* 241 *)

(** What the environment answers in one attempt. *)
Record AttemptEnv : Type :=
  { new_context_r : reply unit;             (* 212 *)
    new_page_r : reply unit;                (* 217 *)
    stealth_r : option (reply unit);        (* 218; None: not installed *)
    goto_r : reply (option Z);              (* 221: the response status *)
    nav_title_r : reply pystr;              (* 227 *)
    accept_visible_r : reply unit;          (* 138 *)
    accept_click_r : reply unit;            (* 140 *)
    accept_hidden_r : reply unit;           (* 141 *)
    accept_pause_r : reply unit;            (* 143 *)
    round_env : nat -> RoundEnv;            (* 234-245 *)
    final_content_r : reply Html }.         (* 246 *)

Module Eff.

(** The worker's state: whether its local variable [context] holds a
    context, and the trace so far. *)
Record state : Type :=
  mkState { context : bool; trace : list event }.

Definition M (A : Type) : Type := state -> reply A * state.

Definition ret {A} (a : A) : M A := fun st => (Returns a, st).

Definition bind {A B} (m : M A) (f : A -> M B) : M B :=
  fun st =>
    match m st with
    | (Returns a, st') => f a st'
    | (Raises e, st') => (Raises e, st')
    end.

Definition raise {A} (e : exn) : M A := fun st => (Raises e, st).

Definition record_event (ev : event) (st : state) : state :=
  {| context := context st; trace := trace st ++ [ev] |}.

Definition emit (ev : event) : M unit :=
  fun st => (Returns tt, record_event ev st).

(** An awaited call: it is issued, then the environment answers. *)
Definition await {A} (line : nat) (c : call) (r : reply A) : M A :=
  fun st => (r, record_event (Call line c) st).

Definition set_context (b : bool) : M unit :=
  fun st => (Returns tt, {| context := b; trace := trace st |}).

Definition get_context : M bool :=
  fun st => (Returns (context st), st).

(** [try: body except Exception as e: handler e] *)
Definition try_except {A} (body : M A) (handler : exn -> M A) : M A :=
  fun st =>
    match body st with
    | (Returns a, st') => (Returns a, st')
    | (Raises e, st') => handler e st'
    end.

(** [async with sem: body]: the permit is given back on every exit. *)
Definition with_sem {A} (body : M A) : M A :=
  fun st =>
    let (r, st') := body (record_event Acquire st) in
    (r, record_event Release st').

End Eff.
Export Eff.

Declare Scope eff_scope.
Delimit Scope eff_scope with eff.
Notation "'do' x <- m ; k" := (bind m (fun x => k))
  (at level 10, x name, m at level 100, k at level 200) : eff_scope.
Notation "'exec' m ; k" := (bind m (fun _ => k))
  (at level 10, m at level 100, k at level 200) : eff_scope.
Local Open Scope eff_scope.

(** ** Lines 134-149: cookie consent *)

Definition handle_cookie_consent (e : AttemptEnv) : M bool :=
  try_except
    (exec await 138 AcceptWaitVisible (accept_visible_r e);
     exec emit (Log LCookieDetected);
     exec await 140 AcceptClick (accept_click_r e);
     exec await 141 AcceptWaitHidden (accept_hidden_r e);
     exec emit (Log LCookieClosed);
     exec await 143 (WaitForTimeout 500 1000) (accept_pause_r e);
     ret true)
    (fun ex =>
       match ex with
       | PlaywrightTimeoutError => ret false
       | _ => exec emit (Log LCookieError); ret false
       end).

(** ** Lines 161-202: block recovery *)

Definition ocr_attempt (r : RoundEnv) : M (option pystr) :=
  try_except
    (do solution <- await 181 OcrSolve (ocr_r r);
     exec emit (Log LOcrSolution);
     ret (Some solution))
    (fun _ => exec emit (Log LOcrFailed); ret None).

(** Lines 163-202, once it is known whether a continue control is
    visible. *)
Definition recover (r : RoundEnv) (continue_visible : bool) : M bool :=
  if continue_visible then
    exec emit (Log LSimpleChallenge);
    try_except
      (exec await 166 ContinueClick (continue_click_r r);
       exec await 167 (WaitForLoadState 15000) (continue_load_r r);
       ret true)
      (fun _ => exec emit (Log LContinueFailed); ret false)
  else
    do captcha_visible <- await 174 CaptchaIsVisible (captcha_visible_r r);
    if negb captcha_visible then
      exec emit (Log LNoCaptchaImage);
      ret false
    else
      exec emit (Log LCaptchaDetected);
      do img_src <- await 179 CaptchaGetSrc (captcha_src_r r);
      do solved <- ocr_attempt r;
      match solved with
      | None => ret false                                   (* line 185 *)
      | Some solution =>
          exec await 187 (CaptchaFill solution) (fill_r r);
          exec await 188 SubmitClick (submit_r r);
          try_except
            (exec await 191 (WaitForLoadState 20000) (post_load_r r);
             do final_html <- await 192 PageContent (post_content_r r);
             do final_title <- await 193 PageTitle (post_title_r r);
             if negb (is_page_blocked final_html final_title) then
               exec emit (Log LCaptchaSolved);
               ret true
             else
               exec emit (Log LCaptchaStillBlocked);
               ret false)
            (fun ex =>
               match ex with
               | PlaywrightTimeoutError =>
                   exec emit (Log LCaptchaTimeout); ret false
               | _ => raise ex
               end)
      end.

Definition handle_blocking_page (r : RoundEnv) : M bool :=
  do continue_visible <- await 163 ContinueIsVisible (continue_visible_r r);
  recover r continue_visible.

(** ** Lines 206-264: the per-target worker *)

Definition not_found_record : record := dict_all (VStr S_NOT_FOUND).
Definition error_record : record := dict_all (VStr S_ERROR).

(** Lines 234-245: [for _ in range(2): ... else: raise]. *)
Fixpoint block_rounds (e : AttemptEnv) (rounds : list nat) : M unit :=
  match rounds with
  | [] => raise (RuntimeError PersistentBlock)
  | i :: rest =>
      do html <- await 235 PageContent (content_r (round_env e i));
      do title <- await 236 PageTitle (title_r (round_env e i));
      if is_page_blocked html title then
        exec emit (Log LBlockedDetected);
        do cleared <- handle_blocking_page (round_env e i);
        if negb cleared then raise (RuntimeError RecoveryFailed)
        else
          exec await 241 (WaitForTimeout 1500 2500) (settle_r (round_env e i));
          block_rounds e rest
      else ret tt
  end.

Section Worker.
Context {L : PyLib}.

(** Lines 246-254 *)
Definition extract_and_return (e : AttemptEnv) : M record :=
  do final_html <- await 246 PageContent (final_content_r e);
  let soup := final_html in
  let avail := extract_availability soup in
  let '(stars, reviews) := extract_reviews_info soup in
  exec emit (Log LSuccess);
  exec await 253 ContextClose (Returns tt);
  ret (dict_result (VStr avail) stars reviews).

(** Lines 227-254, once the title is known. *)
Definition after_title (e : AttemptEnv) (title : pystr) : M record :=
  if re_search_icase NOT_FOUND_RE title then
    exec emit (Log LErrorTitle);
    exec await 229 ContextClose (Returns tt);
    ret not_found_record
  else
    exec handle_cookie_consent e;
    exec block_rounds e (seq 0 2);
    extract_and_return e.

(** Lines 227-254 *)
Definition after_navigation (e : AttemptEnv) : M record :=
  do title <- await 227 PageTitle (nav_title_r e);
  after_title e title.

(** Lines 212-254: the body of [async with sem]. *)
Definition attempt_body (e : AttemptEnv) (url : pyval) (attempt : nat) : M record :=
  exec await 212 NewContext (new_context_r e);
  exec set_context true;
  exec await 217 NewPage (new_page_r e);
  exec match stealth_r e with
       | Some r => await 218 StealthAsync r
       | None => ret tt
       end;
  exec emit (Log (LNavigating attempt));
  do resp <- await 221 (Goto url) (goto_r e);
  match resp with
  | Some status =>
      if 400 <=? status then
        exec emit (Log (LHttpStatus status));
        exec await 225 ContextClose (Returns tt);
        ret not_found_record
      else after_navigation e
  | None => after_navigation e
  end.

(** Lines 256-263: the handler of one attempt; [next] is the rest of the
    loop. *)
Definition attempt_failed (attempt : nat) (next : M record) (ex : exn) : M record :=
  exec emit (Log (LAttemptFailed attempt ex));
  do ctx <- get_context;
  exec (if ctx then await 258 ContextClose (Returns tt) else ret tt);
  if (attempt <? MAX_RETRIES)%nat then
    exec emit (Sleep 5 10);
    next
  else
    exec emit (Log LAllFailed);
    ret error_record.

(** Lines 208-264 *)
Fixpoint retry_loop (env : nat -> AttemptEnv) (url : pyval) (attempts : list nat) : M record :=
  match attempts with
  | [] => ret error_record                                   (* line 264 *)
  | attempt :: rest =>
      exec set_context false;
      try_except
        (with_sem (attempt_body (env attempt) url attempt))
        (attempt_failed attempt (retry_loop env url rest))
  end.

Definition scrape_one (env : nat -> AttemptEnv) (url : pyval) : M record :=
  exec emit (Sleep (fst WAIT_BETWEEN_REQUESTS) (snd WAIT_BETWEEN_REQUESTS));
  retry_loop env url (seq 1 MAX_RETRIES).

End Worker.

Definition init : state := {| context := false; trace := [] |}.

(** ** Lines 268-311: chunks, gathering, aggregation *)

(** A data frame is the list of its rows in positional order; a row maps a
    column name to its cell. *)
Abbreviation row := (gmap string pyval).

Definition LINK : string := "Details Page Link".

Module Chunks.

Fixpoint range_up (fuel : nat) (i stop step : Z) : list Z :=
  match fuel with
  | O => []
  | S fuel' =>
      if i <? stop then i :: range_up fuel' (i + step) stop step else []
  end.

Fixpoint range_down (fuel : nat) (i stop step : Z) : list Z :=
  match fuel with
  | O => []
  | S fuel' =>
      if stop <? i then i :: range_down fuel' (i + step) stop step else []
  end.

(** [range(start, stop, step)]; [None] is the [ValueError] of a zero
    step. *)
Definition py_range (start stop step : Z) : option (list Z) :=
  if step =? 0 then None
  else if 0 <? step
       then Some (range_up (Z.to_nat (stop - start)) start stop step)
       else Some (range_down (Z.to_nat (start - stop)) start stop step).

(** The bound [x] of a slice over a sequence of length [len]. *)
Definition slice_bound (len x : Z) : Z :=
  if x <? 0 then Z.max 0 (x + len) else Z.min x len.

(** [l[lo:hi]], as [iloc] slices by position. *)
Definition iloc_slice {A} (lo hi : Z) (l : list A) : list A :=
  let len := Z.of_nat (length l) in
  let lo' := slice_bound len lo in
  let hi' := slice_bound len hi in
  take (Z.to_nat (hi' - lo')) (drop (Z.to_nat lo') l).

(** Lines 276-277 *)
Definition chunker {A} (df : list A) (size : Z) : option (list (list A)) :=
  match py_range 0 (Z.of_nat (length df)) size with
  | None => None
  | Some starts => Some (map (fun i => iloc_slice i (i + size) df) starts)
  end.

(** [asyncio.gather] over the tasks: task [i] finishes with [outcomes !! i]; the
    tasks finish in the order [completion]; each result goes to the slot of
    its task, and the first exception raised is passed on.  [None]: some
    task never finishes, and neither does [gather]. *)
Fixpoint gather_fill {A} (outcomes : list (reply A)) (completion : list nat)
    (slots : list (option A)) : reply (list (option A)) :=
  match completion with
  | [] => Returns slots
  | i :: later =>
      match outcomes !! i with
      | Some (Returns a) => gather_fill outcomes later (<[i := Some a]> slots)
      | Some (Raises e) => Raises e
      | None => gather_fill outcomes later slots
      end
  end.

Definition gather {A} (outcomes : list (reply A)) (completion : list nat)
    : option (reply (list A)) :=
  match gather_fill outcomes completion (replicate (length outcomes) None) with
  | Raises e => Some (Raises e)
  | Returns slots =>
      match mapM id slots with
      | Some results => Some (Returns results)
      | None => None
      end
  end.

(** Line 273: the three result columns of one row are set from the record
    at the same index. *)
Definition assign_columns (r : row) (res : record) : row :=
  foldr (fun k acc => <[k := default VNone (res !! k)]> acc) r RESULT_KEYS.

Definition column (k : string) (df : list row) : list pyval :=
  map (fun r => default VNone (r !! k)) df.

End Chunks.
Export Chunks.

Section Orchestrator.
Context {L : PyLib}.

(** Lines 268-274.  [w i] is the environment of the worker at position
    [i]; every worker starts from an empty trace. *)
Definition process_chunk (w : nat -> nat -> AttemptEnv) (completion : list nat)
    (df_chunk : list row) : option (reply (list row)) :=
  let tasks := imap (fun i url => fst (scrape_one (w i) url init))
                    (column LINK df_chunk) in
  match gather tasks completion with
  | None => None
  | Some (Raises e) => Some (Raises e)
  | Some (Returns results) =>
      Some (Returns (zip_with assign_columns df_chunk results))
  end.

(** Lines 297-303: the chunks are processed one after the other. *)
Fixpoint process_all (world : nat -> nat -> nat -> AttemptEnv)
    (sched : nat -> list nat) (idx : nat) (chunks : list (list row))
    : option (reply (list (list row))) :=
  match chunks with
  | [] => Some (Returns [])
  | ch :: rest =>
      match process_chunk (world idx) (sched idx) ch with
      | None => None
      | Some (Raises e) => Some (Raises e)
      | Some (Returns processed_chunk) =>
          match process_all world sched (S idx) rest with
          | None => None
          | Some (Raises e) => Some (Raises e)
          | Some (Returns all_results) =>
              Some (Returns (processed_chunk :: all_results))
          end
      end
  end.

(** Lines 294-311: the frame that [pd.concat(all_results,
    ignore_index=True)] builds, for a chunk size [size]; [df] is the frame
    after the optional sampling of line 291.  The pauses between chunks
    (lines 304-307) do not bear on the frame and are left out. *)
Definition run_chunks (world : nat -> nat -> nat -> AttemptEnv)
    (sched : nat -> list nat) (size : Z) (df : list row)
    : option (reply (list row)) :=
  match chunker df size with
  | None => Some (Raises OtherException)       (* ValueError from range *)
  | Some chunks =>
      match process_all world sched 0 chunks with
      | None => None
      | Some (Raises e) => Some (Raises e)
      | Some (Returns all_results) => Some (Returns (concat all_results))
      end
  end.

Definition main_async (world : nat -> nat -> nat -> AttemptEnv)
    (sched : nat -> list nat) (df : list row) : option (reply (list row)) :=
  run_chunks world sched CHUNK_SIZE df.

End Orchestrator.

(** ** Workers running together under one semaphore

    The workers of one chunk are coroutines on one event loop: a worker
    runs without interruption from one awaited call to the next.  [pc] is
    the point at which a worker is suspended; [step i o] resumes worker [i]
    with the outcome [o] of the call it was awaiting and runs it up to its
    next suspension.  A session is open from the moment [new_context()]
    returns until [close()] returns. *)

Module Conc.

Inductive pc : Type :=
| AtJitter                        (* 207 *)
| AtAcquire (attempt : nat)       (* 211, waiting for a permit *)
| AtNewContext (attempt : nat)    (* 212, permit held, [context] is None *)
| InBody (attempt : nat)          (* 217-252, permit held, session open *)
| AtCloseInside (attempt : nat)   (* 225, 229, 253: permit held *)
| AtCloseHandler (attempt : nat)  (* 258: permit given back *)
| AtBackoff (attempt : nat)       (* 260 *)
| Done.

(** How the awaited call ends: it returns and the body goes on to another
    awaited call; it returns and the body reaches the [close()] before a
    [return]; it raises. *)
Inductive outcome : Type := Proceeds | Finishes | Fails.

Record sys : Type :=
  mkSys { permits : nat;          (* the value of the semaphore *)
          open_sessions : nat;
          workers : list pc }.

(** Lines 259-263 *)
Definition after_failure (attempt : nat) : pc :=
  if (attempt <? MAX_RETRIES)%nat then AtBackoff attempt else Done.

Definition step (i : nat) (o : outcome) (s : sys) : option sys :=
  let goes p' permits' open' :=
    Some {| permits := permits'; open_sessions := open';
            workers := <[i := p']> (workers s) |} in
  match workers s !! i with
  | None => None
  | Some AtJitter =>
      goes (match MAX_RETRIES with O => Done | S _ => AtAcquire 1 end)
           (permits s) (open_sessions s)
  | Some (AtAcquire a) =>
      match permits s with
      | O => None
      | S free => goes (AtNewContext a) free (open_sessions s)
      end
  | Some (AtNewContext a) =>
      match o with
      | Fails => goes (after_failure a) (S (permits s)) (open_sessions s)
      | _ => goes (InBody a) (permits s) (S (open_sessions s))
      end
  | Some (InBody a) =>
      match o with
      | Proceeds => goes (InBody a) (permits s) (open_sessions s)
      | Finishes => goes (AtCloseInside a) (permits s) (open_sessions s)
      | Fails => goes (AtCloseHandler a) (S (permits s)) (open_sessions s)
      end
  | Some (AtCloseInside a) =>
      goes Done (S (permits s)) (pred (open_sessions s))
  | Some (AtCloseHandler a) =>
      goes (after_failure a) (permits s) (pred (open_sessions s))
  | Some (AtBackoff a) =>
      goes (AtAcquire (S a)) (permits s) (open_sessions s)
  | Some Done => None
  end.

Fixpoint run_sched (sched : list (nat * outcome)) (s : sys) : option sys :=
  match sched with
  | [] => Some s
  | (i, o) :: later =>
      match step i o s with
      | Some s' => run_sched later s'
      | None => None
      end
  end.

(** Line 269-270: a fresh semaphore and one worker per row. *)
Definition start (K n : nat) : sys :=
  {| permits := K; open_sessions := 0; workers := replicate n AtJitter |}.

Definition holds_permit (p : pc) : bool :=
  match p with
  | AtNewContext _ | InBody _ | AtCloseInside _ => true
  | _ => false
  end.

Definition has_session (p : pc) : bool :=
  match p with
  | InBody _ | AtCloseInside _ | AtCloseHandler _ => true
  | _ => false
  end.

Definition in_handler_close (p : pc) : bool :=
  match p with
  | AtCloseHandler _ => true
  | _ => false
  end.

Definition count_pc (f : pc -> bool) (s : sys) : nat :=
  length (filter (fun p => f p = true) (workers s)).

(** Six workers of one chunk under [MAX_CONCURRENCY] permits: all finish
    their jitter; workers 0 to 4 take the five permits and open their
    sessions; the navigation of worker 0 raises; worker 5 takes the permit
    that worker 0 gave back and its [new_context()] returns. *)
Definition overlap_schedule : list (nat * outcome) :=
  map (fun i => (i, Proceeds)) (seq 0 6)          (* 207 *)
  ++ map (fun i => (i, Proceeds)) (seq 0 5)       (* 211 *)
  ++ map (fun i => (i, Proceeds)) (seq 0 5)       (* 212 *)
  ++ [(0, Fails); (5, Proceeds); (5, Proceeds)]%nat.

(** The same schedule, up to the failure of worker 0. *)
Definition before_failure_schedule : list (nat * outcome) :=
  map (fun i => (i, Proceeds)) (seq 0 6)
  ++ map (fun i => (i, Proceeds)) (seq 0 5)
  ++ map (fun i => (i, Proceeds)) (seq 0 5).

(** What the semaphore guarantees in every state: the permits out and
    the permits left add up to [K], and the open sessions are those of the
    workers that hold a permit or are closing theirs in the handler. *)
Definition balanced (K : nat) (s : sys) : Prop :=
  (permits s + count_pc holds_permit s = K)%nat /\
  open_sessions s = count_pc has_session s.

End Conc.

(** ** Reading traces *)

Definition event_eqb (a b : event) : bool :=
  match a, b with
  | Call l c, Call l' c' =>
      (l =? l')%nat &&
      match c, c' with
      | NewContext, NewContext | NewPage, NewPage
      | StealthAsync, StealthAsync | PageTitle, PageTitle
      | PageContent, PageContent | ContextClose, ContextClose
      | AcceptWaitVisible, AcceptWaitVisible | AcceptClick, AcceptClick
      | AcceptWaitHidden, AcceptWaitHidden
      | ContinueIsVisible, ContinueIsVisible | ContinueClick, ContinueClick
      | CaptchaIsVisible, CaptchaIsVisible | CaptchaGetSrc, CaptchaGetSrc
      | OcrSolve, OcrSolve | SubmitClick, SubmitClick => true
      | WaitForTimeout a b, WaitForTimeout a' b' => (a =? a') && (b =? b')
      | WaitForLoadState t, WaitForLoadState t' => t =? t'
      | _, _ => false
      end
  | Sleep a b, Sleep a' b' => (a =? a') && (b =? b')
  | Acquire, Acquire => true
  | Release, Release => true
  | _, _ => false
  end.

Definition count_event (ev : event) (t : list event) : nat :=
  length (filter (fun x => event_eqb ev x = true) t).

(** The jitter of line 207 and the backoff of line 260. *)
Definition JITTER : event :=
  Sleep (fst WAIT_BETWEEN_REQUESTS) (snd WAIT_BETWEEN_REQUESTS).
Definition BACKOFF : event := Sleep 5 10.

(** One attempt is one entry into [async with sem]. *)
Definition attempts_made (t : list event) : nat := count_event Acquire t.

(** The event just before each entry into [async with sem]. *)
Fixpoint before_acquires (prev : option event) (t : list event) : list (option event) :=
  match t with
  | [] => []
  | ev :: t' =>
      (if event_eqb Acquire ev then [prev] else [])
        ++ before_acquires (Some ev) t'
  end.

(** The event before whatever follows [t], when [prev] came before [t]. *)
Definition prev_after (prev : option event) (t : list event) : option event :=
  match last t with
  | Some ev => Some ev
  | None => prev
  end.

(** Events of the attempt body and of the recovery routines: awaited calls
    and log lines, no [asyncio.sleep] and no semaphore operation. *)
Definition body_event (ev : event) : Prop :=
  match ev with
  | Call _ _ | Log _ => True
  | _ => False
  end.

(** ** A small program logic for [M]

    [spec m post]: from every state, [m] ends with the same reply [r], adds
    the same events [t] to the trace, and sets [context] or leaves it as it
    was ([b]); and [post r b t] holds. *)

Definition extend (st : state) (b : bool) (t : list event) : state :=
  {| context := context st || b; trace := trace st ++ t |}.

Definition spec {A} (m : M A) (post : reply A -> bool -> list event -> Prop) : Prop :=
  exists r b t, (forall st, m st = (r, extend st b t)) /\ post r b t.

(** The reply and the events of a program run on its own. *)
Definition outcome_of {A} (m : M A) : reply A := fst (m init).
Definition events_of {A} (m : M A) : list event := trace (snd (m init)).

(** ** Case-insensitive occurrence, stated on code points

    [swapcase] exchanges capital and small letters of ASCII and Latin-1;
    [occurs_ci p s]: some factor of [s] spells [p] up to the case of its
    letters. *)

Definition swapcase (c : N) : N :=
  if ((65 <=? c) && (c <=? 90))%N then (c + 32)%N
  else if ((97 <=? c) && (c <=? 122))%N then (c - 32)%N
  else if ((192 <=? c) && (c <=? 222) && negb (c =? 215))%N then (c + 32)%N
  else if ((224 <=? c) && (c <=? 254) && negb (c =? 247))%N then (c - 32)%N
  else c.

Definition ci_eq (c p : N) : Prop := c = p \/ c = swapcase p.

Definition occurs_ci (p s : pystr) : Prop :=
  exists pre mid post, s = pre ++ mid ++ post /\ Forall2 ci_eq mid p.

Definition VERIFY : pystr := cp "verify".
Definition VERIFICATION : pystr := cp "v" ++ [233%N] ++ cp "rification".

(** ** A reference instance of the library functions, on ASCII digits *)

Module AsciiLib.

Definition is_digit (c : N) : bool := ((48 <=? c) && (c <=? 57))%N.
Definition is_numeric (c : N) : bool :=
  is_digit c || (c =? 44)%N || (c =? 46)%N.
Definition is_space (c : N) : bool :=
  (c =? 32)%N || ((9 <=? c) && (c <=? 13))%N || (c =? 160)%N.

Fixpoint skip_spaces (s : pystr) : pystr :=
  match s with
  | c :: s' => if is_space c then skip_spaces s' else s
  | [] => []
  end.

Definition STARS_FR : pystr := [233%N] ++ cp "toiles sur 5".
Definition STARS_EN : pystr := cp "out of 5 stars".

Definition stars_suffix (s : pystr) : bool :=
  let s' := skip_spaces s in
  starts_with N.eqb STARS_FR s' || starts_with N.eqb STARS_EN s'.

(** The leftmost run of digits, commas and dots that [accept] takes, given
    what follows it; [acc] is the run being read, reversed. *)
Fixpoint scan_run (accept : pystr -> bool) (acc : list N) (s : pystr) : option pystr :=
  match s with
  | [] => if nonempty acc && accept [] then Some (rev acc) else None
  | c :: s' =>
      if is_numeric c then scan_run accept (c :: acc) s'
      else if nonempty acc && accept s then Some (rev acc)
      else scan_run accept [] s'
  end.

Definition digit_value (c : N) : Z := Z.of_N c - 48.

Definition digits_value (ds : pystr) : Z :=
  fold_left (fun n c => 10 * n + digit_value c) ds 0.

Definition int_of (s : pystr) : option Z :=
  if nonempty s && forallb is_digit s then Some (digits_value s) else None.

Fixpoint after_dot (s : pystr) : pystr :=
  match s with
  | [] => []
  | c :: s' => if (c =? 46)%N then s' else after_dot s'
  end.

(** A numeral [ddd], [ddd.], [.ddd] or [ddd.ddd], as the decimal it
    denotes (the rounding to binary64 is left out). *)
Definition float_of (s : pystr) : option Q :=
  let ds := filter (fun c => is_digit c = true) s in
  let dots := filter (fun c => (c =? 46)%N = true) s in
  if nonempty ds && forallb (fun c => is_digit c || (c =? 46)%N) s
     && (length dots <=? 1)%nat
  then Some (Qmake (digits_value ds)
                   (Z.to_pos (10 ^ Z.of_nat (length (after_dot s)))))
  else None.

End AsciiLib.

#[export] Instance ascii_lib : PyLib :=
  {| re_search_stars_title := AsciiLib.scan_run AsciiLib.stars_suffix [];
     re_search_number := AsciiLib.scan_run (fun _ => true) [];
     re_sub_non_digits := filter (fun c => AsciiLib.is_digit c = true);
     py_float := AsciiLib.float_of;
     py_int := AsciiLib.int_of |}.

(** ** Sample pages and environments *)

Module Samples.

Definition no_tag : string -> option Tag := fun _ => None.

Definition text_tag (text : pystr) : Tag :=
  {| get_text_strip := text; tag_attr := fun _ => None; tag_select_one := no_tag |}.

Definition popover : Tag :=
  {| get_text_strip := [];
     tag_attr := fun k => if decide (k = "title"%string)
                          then Some (cp "4,5 " ++ [233%N] ++ cp "toiles sur 5")
                          else None;
     tag_select_one := no_tag |}.

Definition reviews_section : Tag :=
  {| get_text_strip := [];
     tag_attr := fun _ => None;
     tag_select_one := fun sel =>
       if decide (sel = "#acrPopover"%string) then Some popover
       else if decide (sel = "#acrCustomerReviewText"%string)
            then Some (text_tag (cp "1 234 " ++ [233%N] ++ cp "valuations"))
            else None |}.

(** A product page: in stock, 4,5 stars, 1 234 reviews. *)
Definition product_page : Html :=
  {| form_actions := [];
     img_srcs := [cp "/images/I/71abc.jpg"];
     select_one := fun sel =>
       if decide (sel = "#availability .a-color-success"%string)
       then Some (text_tag (cp "En stock"))
       else if decide (sel = "#averageCustomerReviews_feature_div, #averageCustomerReviews"%string)
            then Some reviews_section
            else None |}.

(** A page that shows nothing the code looks for. *)
Definition bare_page : Html :=
  {| form_actions := []; img_srcs := []; select_one := no_tag |}.

(** A robot-check interstitial with a CAPTCHA form. *)
Definition captcha_page : Html :=
  {| form_actions := [cp "/errors/validateCaptcha"];
     img_srcs := [cp "https://images-na.ssl-images-amazon.com/captcha/abc/Captcha_x.jpg"];
     select_one := no_tag |}.

(** A round in which the page is [html] with title [title]; [continue_v]
    and [captcha_v]: which controls are visible; every call returns and the
    page after a submitted CAPTCHA is [after]. *)
Definition round_of (html : Html) (title : pystr) (continue_v captcha_v : bool)
    (after : Html) : RoundEnv :=
  {| content_r := Returns html;
     title_r := Returns title;
     continue_visible_r := Returns continue_v;
     continue_click_r := Returns tt;
     continue_load_r := Returns tt;
     captcha_visible_r := Returns captcha_v;
     captcha_src_r := Returns (Some (cp "/captcha/abc/Captcha_x.jpg"));
     ocr_r := Returns (cp "KXRPTB");
     fill_r := Returns tt;
     submit_r := Returns tt;
     post_load_r := Returns tt;
     post_content_r := Returns after;
     post_title_r := Returns (cp "Amazon.fr");
     settle_r := Returns tt |}.

Definition PRODUCT_TITLE : pystr := cp "Casque audio : Amazon.fr".

Definition round_clear : RoundEnv :=
  round_of product_page PRODUCT_TITLE false false product_page.

(** An attempt in which every call returns and no cookie banner shows up
    (the wait of line 138 times out). *)
Definition attempt_env (goto : reply (option Z)) (title : reply pystr)
    (rounds : nat -> RoundEnv) (final : reply Html) : AttemptEnv :=
  {| new_context_r := Returns tt;
     new_page_r := Returns tt;
     stealth_r := Some (Returns tt);
     goto_r := goto;
     nav_title_r := title;
     accept_visible_r := Raises PlaywrightTimeoutError;
     accept_click_r := Returns tt;
     accept_hidden_r := Returns tt;
     accept_pause_r := Returns tt;
     round_env := rounds;
     final_content_r := final |}.

Definition attempt_ok : AttemptEnv :=
  attempt_env (Returns (Some 200)) (Returns PRODUCT_TITLE)
             (fun _ => round_clear) (Returns product_page).


Definition attempt_timeout : AttemptEnv :=
  attempt_env (Raises PlaywrightTimeoutError) (Returns PRODUCT_TITLE)
             (fun _ => round_clear) (Returns product_page).

(** Navigation yields no response object and the title is an error title. *)
Definition attempt_no_response : AttemptEnv :=
  attempt_env (Returns None) (Returns (cp "Page introuvable"))
             (fun _ => round_clear) (Returns bare_page).

(** The title says "Robot Check"; neither a continue control nor a CAPTCHA
    image is visible. *)
Definition round_nothing_visible : RoundEnv :=
  round_of bare_page (cp "Robot Check") false false bare_page.

Definition attempt_nothing_visible : AttemptEnv :=
  attempt_env (Returns (Some 200)) (Returns (cp "Robot Check"))
             (fun _ => round_nothing_visible) (Returns bare_page).

(** A CAPTCHA page in round 0, solved by OCR; a product page in round 1. *)
Definition attempt_captcha_solved : AttemptEnv :=
  attempt_env (Returns (Some 200)) (Returns (cp "Amazon.fr"))
             (fun i => match i with
                       | O => round_of captcha_page (cp "Attention requise") false true product_page
                       | S _ => round_clear
                       end)
             (Returns product_page).

(** A verification page whose continue control works in both rounds and
    which is still there afterwards. *)
Definition round_still_blocked : RoundEnv :=
  round_of bare_page (cp "Verify you are human") true false bare_page.

Definition attempt_still_blocked : AttemptEnv :=
  attempt_env (Returns (Some 200)) (Returns (cp "Verify you are human"))
             (fun _ => round_still_blocked) (Returns bare_page).

Definition always (e : AttemptEnv) : nat -> AttemptEnv := fun _ => e.

(** The first attempt times out, the later ones go through. *)
Definition flaky : nat -> AttemptEnv :=
  fun attempt => match attempt with
                 | 1%nat => attempt_timeout
                 | _ => attempt_ok
                 end.

Definition URL_A : pyval := VStr (cp "https://www.amazon.fr/dp/A").
Definition URL_B : pyval := VStr (cp "https://www.amazon.fr/dp/B").
Definition URL_C : pyval := VStr (cp "https://www.amazon.fr/dp/C").

Definition row_of (url : pyval) (sku : Z) : row :=
  <[LINK := url]> (<["sku"%string := VInt sku]> ∅).

(** Three rows; with chunks of two, [urlB] times out in every attempt. *)
Definition three_rows : list row :=
  [row_of URL_A 1; row_of URL_B 2; row_of URL_C 3].

Definition world3 : nat -> nat -> nat -> AttemptEnv :=
  fun chunk pos _ =>
    match chunk, pos with
    | O, 1%nat => attempt_timeout
    | _, _ => attempt_ok
    end.

(** In every chunk the last task finishes first. *)
Definition sched3 : nat -> list nat :=
  fun chunk => match chunk with
               | O => [1; 0]%nat
               | _ => [0]%nat
               end.

End Samples.

(** The source line of a log call. *)
Definition log_line (m : log_msg) : nat :=
  match m with
  | LCookieDetected => 139 | LCookieClosed => 142 | LCookieError => 148
  | LSimpleChallenge => 164 | LContinueFailed => 170
  | LNoCaptchaImage => 175 | LCaptchaDetected => 178
  | LOcrSolution => 182 | LOcrFailed => 184
  | LCaptchaSolved => 195 | LCaptchaStillBlocked => 198
  | LCaptchaTimeout => 201
  | LNavigating _ => 220 | LHttpStatus _ => 224 | LErrorTitle => 228
  | LBlockedDetected => 238 | LSuccess => 252
  | LAttemptFailed _ _ => 257 | LAllFailed => 262
  end.

Definition line_of (ev : event) : option nat :=
  match ev with
  | Call line _ => Some line
  | Log m => Some (log_line m)
  | _ => None
  end.

(** [ev] is a call or a log line issued between the lines [lo] and [hi]. *)
Definition in_lines (lo hi : nat) (ev : event) : Prop :=
  match line_of ev with
  | Some line => (lo <= line <= hi)%nat
  | None => False
  end.

(** The events after the navigation: lines 138-148 (cookies), 163-201
    and 235-241 (recovery), 227-229 and 246-253. *)
Definition after_navigation_event (ev : event) : Prop :=
  in_lines 138 148 ev \/ in_lines 163 201 ev \/ in_lines 227 229 ev \/
  in_lines 235 253 ev.

(** [only P Q]: every event added satisfies [P] and a returned value
    satisfies [Q]. *)
Definition only {A} (P : event -> Prop) (Q : A -> Prop)
    : reply A -> bool -> list event -> Prop :=
  fun r _ t => Forall P t /\ forall a, r = Returns a -> Q a.

Definition anything {A} : A -> Prop := fun _ => True.

(** ** Summaries of the recovery loop and of the attempts *)

(** How round [r] classifies its page (lines 235-237). *)
Definition classified (r : RoundEnv) : reply bool :=
  match content_r r with
  | Raises ex => Raises ex
  | Returns html =>
      match title_r r with
      | Raises ex => Raises ex
      | Returns title => Returns (is_page_blocked html title)
      end
  end.

(** What [handle_blocking_page] answers in round [r]. *)
Definition cleared (r : RoundEnv) : reply bool :=
  outcome_of (handle_blocking_page r).



(** The recovery loop as section 4.3, step 6 words it: at most two rounds;
    a blocked page is cleared; a failed clearing is a failure of the
    attempt; after a clearing that worked the page is checked once more;
    two blocked rounds are a failure of the attempt. *)
Definition recovery_rounds (r0 r1 : RoundEnv) : reply unit :=
  match classified r0 with
  | Raises ex => Raises ex
  | Returns false => Returns tt
  | Returns true =>
      match cleared r0 with
      | Raises ex => Raises ex
      | Returns false => Raises (RuntimeError RecoveryFailed)
      | Returns true =>
          match settle_r r0 with
          | Raises ex => Raises ex
          | Returns _ =>
              match classified r1 with
              | Raises ex => Raises ex
              | Returns false => Returns tt
              | Returns true =>
                  match cleared r1 with
                  | Raises ex => Raises ex
                  | Returns false => Raises (RuntimeError RecoveryFailed)
                  | Returns true =>
                      match settle_r r1 with
                      | Raises ex => Raises ex
                      | Returns _ => Raises (RuntimeError PersistentBlock)
                      end
                  end
              end
          end
      end
  end.

(** A reply that is an exception. *)
Definition raises {A} (r : reply A) : Prop := exists ex, r = Raises ex.

(** The calls before the navigation return. *)
Definition reaches_navigation (e : AttemptEnv) : Prop :=
  new_context_r e = Returns tt /\ new_page_r e = Returns tt /\
  (stealth_r e = None \/ stealth_r e = Some (Returns tt)).



(** The events of an attempt up to and including its request. *)
Definition navigation_events (e : AttemptEnv) (url : pyval) (attempt : nat) : list event :=
  [Call 212 NewContext; Call 217 NewPage]
    ++ match stealth_r e with
       | Some _ => [Call 218 StealthAsync]
       | None => []
       end
    ++ [Log (LNavigating attempt); Call 221 (Goto url)].

Section Summaries.
Context {L : PyLib}.

(** Attempt [a] of a worker, run on its own: lines 211-254. *)
Definition attempt_of (env : nat -> AttemptEnv) (url : pyval) (a : nat) : M record :=
  with_sem (attempt_body (env a) url a).

(** The events of lines 257-258 after attempt [a] raised [ex]. *)
Definition handler_events (env : nat -> AttemptEnv) (url : pyval) (a : nat) (ex : exn) : list event :=
  Log (LAttemptFailed a ex)
    :: (if context (snd (attempt_of env url a init))
        then [Call 258 ContextClose] else []).

(** What the retry loop returns and the events it adds. *)
Fixpoint loop_summary (env : nat -> AttemptEnv) (url : pyval) (attempts : list nat)
    : record * list event :=
  match attempts with
  | [] => (error_record, [])
  | a :: rest =>
      match outcome_of (attempt_of env url a) with
      | Returns rec => (rec, events_of (attempt_of env url a))
      | Raises ex =>
          let t := events_of (attempt_of env url a) ++ handler_events env url a ex in
          if (a <? MAX_RETRIES)%nat then
            let (rec, t') := loop_summary env url rest in
            (rec, t ++ [BACKOFF] ++ t')
          else (error_record, t ++ [Log LAllFailed])
      end
  end.

End Summaries.

(** ** Populated records *)

Definition SENTINELS : list pystr := [S_NA; S_NOT_FOUND; S_ERROR; S_NO_RATING].

Definition is_sentinel (v : pyval) : Prop :=
  exists s, v = VStr s /\ s ∈ SENTINELS.




Definition stars_shape (s : pyval) : Prop :=
  (exists q, s = VFloat q) \/ s = VStr S_NO_RATING.

Definition reviews_shape (r : pyval) : Prop :=
  (exists z, r = VInt z) \/ r = VStr S_NO_RATING.

(** The record of a finished extraction (line 254). *)
Definition extracted (rec : record) : Prop :=
  exists a s r, rec = dict_result (VStr a) s r /\ a <> [] /\
    stars_shape s /\ reviews_shape r.

(** What one attempt can return. *)
Definition attempt_result (rec : record) : Prop :=
  rec = not_found_record \/ extracted rec.

(** ** The frame after the run *)

Section Frame.
Context {L : PyLib}.

(** The record the retry loop of a worker ends with. *)
Definition summary_record (env : nat -> AttemptEnv) (url : pyval) : record :=
  fst (loop_summary env url (seq 1 MAX_RETRIES)).

(** The cell of a row that is passed to its worker (line 270). *)
Definition url_of (r : row) : pyval := default VNone (r !! LINK).

(** Row [j] of the frame after the run, for chunks of [c] rows: its
    worker is the one at position [j mod c] of chunk [j / c]. *)
Definition processed_row (world : nat -> nat -> nat -> AttemptEnv) (c : nat)
    (j : nat) (r : row) : row :=
  assign_columns r (summary_record (world (j / c)%nat (j mod c)%nat) (url_of r)).

End Frame.

(* ================================================================== *)
(** * Further definitions: extraction, sessions, permits, the main loop *)
(* ================================================================== *)

(** ** Reading the extraction helpers *)

(** What the loop of lines 88-92 can return from one selector: the text
    of the element it selects, unless that text is empty or holds "Lire la
    suite". *)
Definition usable_text (soup : Html) (selector : string) : option pystr :=
  match select_one soup selector with
  | Some element =>
      let text := get_text_strip element in
      if nonempty text && negb (contains (cp "Lire la suite") text)
      then Some text else None
  | None => None
  end.

Section Ratings.
Context {L : PyLib}.

(** The rating that the title of the popover gives (lines 102-109), the
    one that the icon text gives (lines 112-119) and the count that the
    review text gives (lines 121-128); [None] when an element is missing,
    a pattern does not match or a conversion raises. *)
Definition popover_stars (reviews_section : Tag) : option Q :=
  popover ← tag_select_one reviews_section "#acrPopover";
  title ← tag_attr popover "title";
  g1 ← re_search_stars_title (replace_comma_dot title);
  py_float g1.

Definition icon_stars (reviews_section : Tag) : option Q :=
  star_span ← tag_select_one reviews_section "span.a-icon-alt";
  (if nonempty (get_text_strip star_span)
   then g1 ← re_search_number (replace_comma_dot (get_text_strip star_span));
        py_float g1
   else None).

Definition review_count (reviews_section : Tag) : option Z :=
  element ← tag_select_one reviews_section "#acrCustomerReviewText";
  (if nonempty (get_text_strip element)
      && nonempty (re_sub_non_digits (get_text_strip element))
   then py_int (re_sub_non_digits (get_text_strip element))
   else None).

End Ratings.

(** An attempt environment with other answers to the four calls of
    [handle_cookie_consent]. *)
Definition with_cookie_replies (e : AttemptEnv)
    (visible click hidden pause : reply unit) : AttemptEnv :=
  {| new_context_r := new_context_r e;
     new_page_r := new_page_r e;
     stealth_r := stealth_r e;
     goto_r := goto_r e;
     nav_title_r := nav_title_r e;
     accept_visible_r := visible;
     accept_click_r := click;
     accept_hidden_r := hidden;
     accept_pause_r := pause;
     round_env := round_env e;
     final_content_r := final_content_r e |}.

(** A reply that is a return. *)
Definition returns {A} (r : reply A) : Prop := exists a, r = Returns a.

(** [p] occurs in [s] up to the case folding of [re.IGNORECASE]. *)
Definition occurs_folded (p s : pystr) : Prop :=
  exists pre mid post,
    s = pre ++ mid ++ post /\ map sre_fold mid = map sre_fold p.

(** ** Sessions and permits in the trace of a worker *)

(** [ev] is a call of [context.close()] (lines 225, 229, 253 and 258). *)
Definition is_close (ev : event) : bool :=
  match ev with
  | Call _ ContextClose => true
  | _ => false
  end.






(** Reading a trace with the permit in mind; [held]: the worker holds a
    permit.  A permit is taken only when none is held and given back only
    when one is held; no [asyncio.sleep] happens under a permit; outside
    a permit the only awaited call is [context.close()]; at the end no
    permit is held. *)
Fixpoint permit_discipline (held : bool) (t : list event) : bool :=
  match t with
  | [] => negb held
  | Acquire :: t' => negb held && permit_discipline true t'
  | Release :: t' => held && permit_discipline false t'
  | Sleep _ _ :: t' => negb held && permit_discipline held t'
  | Call line c :: t' =>
      (held || is_close (Call line c)) && permit_discipline held t'
  | Log _ :: t' => permit_discipline held t'
  end.

(** ** Tasks that finish *)

(** Each of the [n] tasks of a chunk finishes, in whatever order. *)
Definition every_task_finishes (completion : list nat) (n : nat) : Prop :=
  Forall (fun i => i ∈ completion) (seq 0 n).

#[export] Instance every_task_finishes_dec completion n :
  Decision (every_task_finishes completion n) :=
  Forall_dec (fun i => i ∈ completion) (seq 0 n).

(** ** Schedules *)


(** ** Lines 297-315: the loop over the chunks and the output

    The browser is launched, the chunks are processed one after the
    other with a pause between two of them, the browser is closed, and the
    frame is written when there is a result.  Launching and closing the
    browser are taken to return. *)

Inductive main_event : Type :=
| LaunchBrowser                  (* 299 *)
| ChunkBegins (idx total : nat)  (* 301 *)
| ChunkPause                     (* 305-307 *)
| BrowserClose                   (* 308 *)
| ToCsv (full_df : list row)     (* 311-313 *)
| NoResult.                      (* 315 *)



(** The events of the chunk numbered [idx] out of [total] when it is
    processed to the end (lines 301-307). *)
Definition chunk_events (total idx : nat) : list main_event :=
  ChunkBegins idx total :: (if (idx <? total)%nat then [ChunkPause] else []).

Section MainLoop.
Context {L : PyLib}.

(** Lines 300-307, from the chunk numbered [idx] (counted from 1) on;
    [None]: a chunk never returns. *)
Fixpoint chunk_loop (world : nat -> nat -> nat -> AttemptEnv)
    (sched : nat -> list nat) (total idx : nat) (chunks : list (list row))
    : option (reply (list (list row)) * list main_event) :=
  match chunks with
  | [] => Some (Returns [], [])
  | ch :: rest =>
      match process_chunk (world (pred idx)) (sched (pred idx)) ch with
      | None => None
      | Some (Raises e) => Some (Raises e, [ChunkBegins idx total])
      | Some (Returns processed_chunk) =>
          match chunk_loop world sched total (S idx) rest with
          | None => None
          | Some (Raises e, t) => Some (Raises e, chunk_events total idx ++ t)
          | Some (Returns all_results, t) =>
              Some (Returns (processed_chunk :: all_results),
                    chunk_events total idx ++ t)
          end
      end
  end.

(** Lines 294-315 for a chunk size [size]; [df] is the frame after the
    optional sampling of line 291.  [Returns (Some full_df)]: the frame
    [full_df] is written; [Returns None]: nothing is written. *)
Definition main_async_output (world : nat -> nat -> nat -> AttemptEnv)
    (sched : nat -> list nat) (size : Z) (df : list row)
    : option (reply (option (list row)) * list main_event) :=
  match chunker df size with
  | None => Some (Raises OtherException, [])     (* ValueError from range *)
  | Some chunks =>
      match chunk_loop world sched (length chunks) 1 chunks with
      | None => None
      | Some (Raises e, t) => Some (Raises e, LaunchBrowser :: t)
      | Some (Returns all_results, t) =>
          match all_results with
          | [] =>
              Some (Returns None, LaunchBrowser :: t ++ [BrowserClose; NoResult])
          | _ :: _ =>
              let full_df := concat all_results in
              Some (Returns (Some full_df),
                    LaunchBrowser :: t ++ [BrowserClose; ToCsv full_df])
          end
      end
  end.

End MainLoop.

(** ** More sample pages *)

Module MoreSamples.

(** A page whose first availability element is a teaser that ends in
    "Lire la suite" and whose third one tells the state of the stock. *)
Definition teaser_page : Html :=
  {| form_actions := [];
     img_srcs := [];
     select_one := fun sel =>
       if decide (sel = "#availability .a-color-success"%string)
       then Some (Samples.text_tag (cp "Livraison rapide... Lire la suite"))
       else if decide (sel = "#availability > span:first-of-type"%string)
            then Some (Samples.text_tag (cp "Temporairement en rupture de stock."))
            else None |}.

End MoreSamples.

(* ================================================================== *)
(** * Properties *)
(* ================================================================== *)

(** ** Rules of the program logic *)

Section Logic.

Lemma extend_extend st b t b' t' :
  extend (extend st b t) b' t' = extend st (b || b') (t ++ t').
Proof.
  unfold extend; simpl. by rewrite orb_assoc, app_assoc.
Qed.

Lemma extend_event st ev : record_event ev st = extend st false [ev].
Proof.
  unfold record_event, extend; simpl. by rewrite orb_false_r.
Qed.

Lemma spec_ret {A} (a : A) post :
  post (Returns a) false [] -> spec (ret a) post.
Proof.
  intros H. exists (Returns a), false, []. split; [|done].
  intros [c t]. unfold ret, extend; simpl.
  by rewrite orb_false_r, app_nil_r.
Qed.

Lemma spec_raise {A} (e : exn) post :
  post (@Raises A e) false [] -> spec (raise e) post.
Proof.
  intros H. exists (Raises e), false, []. split; [|done].
  intros [c t]. unfold raise, extend; simpl.
  by rewrite orb_false_r, app_nil_r.
Qed.

Lemma spec_emit ev post :
  post (Returns tt) false [ev] -> spec (emit ev) post.
Proof.
  intros H. exists (Returns tt), false, [ev]. split; [|done].
  intros st. unfold emit. by rewrite extend_event.
Qed.

Lemma spec_await {A} line c (r : reply A) post :
  post r false [Call line c] -> spec (await line c r) post.
Proof.
  intros H. exists r, false, [Call line c]. split; [|done].
  intros st. unfold await. by rewrite extend_event.
Qed.

Lemma spec_set_context_true post :
  post (Returns tt) true [] -> spec (set_context true) post.
Proof.
  intros H. exists (Returns tt), true, []. split; [|done].
  intros [c t]. unfold set_context, extend; simpl.
  by rewrite orb_true_r, app_nil_r.
Qed.

Lemma spec_bind {A B} (m : M A) (f : A -> M B) mid post :
  spec m mid ->
  (forall a b t, mid (Returns a) b t ->
     spec (f a) (fun r b' t' => post r (b || b') (t ++ t'))) ->
  (forall e b t, mid (Raises e) b t -> post (Raises e) b t) ->
  spec (bind m f) post.
Proof.
  intros (r & b & t & Hm & Hmid) Hf He.
  destruct r as [a|e].
  - destruct (Hf a b t Hmid) as (r' & b' & t' & Hfa & Hpost).
    exists r', (b || b'), (t ++ t'). split; [|done].
    intros st. unfold bind. rewrite Hm, Hfa. by rewrite extend_extend.
  - exists (Raises e), b, t. split; [|by apply He].
    intros st. unfold bind. by rewrite Hm.
Qed.

Lemma spec_try {A} (body : M A) (handler : exn -> M A) mid post :
  spec body mid ->
  (forall a b t, mid (Returns a) b t -> post (Returns a) b t) ->
  (forall e b t, mid (Raises e) b t ->
     spec (handler e) (fun r b' t' => post r (b || b') (t ++ t'))) ->
  spec (try_except body handler) post.
Proof.
  intros (r & b & t & Hm & Hmid) Hr Hh.
  destruct r as [a|e].
  - exists (Returns a), b, t. split; [|by apply Hr].
    intros st. unfold try_except. by rewrite Hm.
  - destruct (Hh e b t Hmid) as (r' & b' & t' & Hhe & Hpost).
    exists r', (b || b'), (t ++ t'). split; [|done].
    intros st. unfold try_except. rewrite Hm, Hhe. by rewrite extend_extend.
Qed.

Lemma spec_with_sem {A} (body : M A) mid post :
  spec body mid ->
  (forall r b t, mid r b t -> post r b (Acquire :: t ++ [Release])) ->
  spec (with_sem body) post.
Proof.
  intros (r & b & t & Hm & Hmid) Hpost.
  exists r, b, (Acquire :: t ++ [Release]). split; [|by apply Hpost].
  intros st. unfold with_sem. rewrite Hm, !extend_event, !extend_extend.
  simpl. by rewrite orb_false_r.
Qed.

Lemma spec_weaken {A} (m : M A) (post post' : reply A -> bool -> list event -> Prop) :
  spec m post -> (forall r b t, post r b t -> post' r b t) -> spec m post'.
Proof.
  intros (r & b & t & Hm & Hp) H. exists r, b, t. auto.
Qed.

(** What [spec] says about a run from [init], and from any state. *)
Lemma spec_run {A} (m : M A) post :
  spec m post ->
  exists b, post (outcome_of m) b (events_of m) /\
    forall st, m st = (outcome_of m, extend st b (events_of m)).
Proof.
  intros (r & b & t & Hm & Hp). unfold outcome_of, events_of.
  rewrite (Hm init). simpl. eauto.
Qed.

(** The rules for [only]. *)
Lemma only_ret {A} P (Q : A -> Prop) a : Q a -> spec (ret a) (only P Q).
Proof.
  intros H. apply spec_ret. split; [constructor|]. by intros ? [= <-].
Qed.

Lemma only_raise {A} P (Q : A -> Prop) e : spec (raise e) (only P Q).
Proof. apply spec_raise. split; [constructor|]. done. Qed.

Lemma only_emit P (Q : unit -> Prop) ev :
  P ev -> Q tt -> spec (emit ev) (only P Q).
Proof.
  intros HP H. apply spec_emit. split; [by repeat constructor|].
  by intros [] _.
Qed.

Lemma only_await {A} P (Q : A -> Prop) line c r :
  P (Call line c) -> (forall a, r = Returns a -> Q a) ->
  spec (await line c r) (only P Q).
Proof.
  intros HP H. apply spec_await. split; [by repeat constructor|]. done.
Qed.

Lemma only_set_context_true P (Q : unit -> Prop) :
  Q tt -> spec (set_context true) (only P Q).
Proof.
  intros H. apply spec_set_context_true. split; [constructor|].
  by intros [] _.
Qed.

Lemma only_bind {A B} P (m : M A) (f : A -> M B) (Q1 : A -> Prop) (Q : B -> Prop) :
  spec m (only P Q1) ->
  (forall a, Q1 a -> spec (f a) (only P Q)) ->
  spec (bind m f) (only P Q).
Proof.
  intros Hm Hf. eapply spec_bind; [exact Hm| |].
  - intros a b t [Ht Ha]. eapply spec_weaken; [apply Hf; by apply Ha|].
    intros r b' t' [Ht' Hr]. split; [by apply Forall_app|done].
  - intros e b t [Ht _]. split; [done|]. done.
Qed.

Lemma only_try {A} P (body : M A) (handler : exn -> M A) (Q : A -> Prop) :
  spec body (only P Q) ->
  (forall e, spec (handler e) (only P Q)) ->
  spec (try_except body handler) (only P Q).
Proof.
  intros Hm Hh. eapply spec_try; [exact Hm| |].
  - intros a b t H. exact H.
  - intros e b t [Ht _]. eapply spec_weaken; [apply Hh|].
    intros r b' t' [Ht' Hr]. split; [by apply Forall_app|done].
Qed.

Lemma only_weaken {A} (P P' : event -> Prop) (m : M A) (Q Q' : A -> Prop) :
  spec m (only P Q) ->
  (forall ev, P ev -> P' ev) -> (forall a, Q a -> Q' a) ->
  spec m (only P' Q').
Proof.
  intros Hm HP H. eapply spec_weaken; [exact Hm|].
  intros r b t [Ht Hr]. split; [by eapply Forall_impl|].
  intros a ->. by apply H, Hr.
Qed.

Lemma in_lines_body lo hi ev : in_lines lo hi ev -> body_event ev.
Proof. unfold in_lines. by destruct ev. Qed.

Lemma in_lines_mono lo hi lo' hi' ev :
  (lo' <= lo)%nat -> (hi <= hi')%nat -> in_lines lo hi ev -> in_lines lo' hi' ev.
Proof. unfold in_lines. destruct (line_of ev); [lia|done]. Qed.

End Logic.

(** ** Where the events of each routine come from *)

Ltac lines_side H :=
  first [ exact I
        | apply H; unfold in_lines; simpl; first [lia | tauto] ].

Ltac only_go H :=
  repeat match goal with
    | |- spec (bind _ _) _ =>
        eapply only_bind with (Q1 := anything); [ | intros ? _ ]
    | |- spec (try_except _ _) _ => apply only_try
    | |- spec (ret _) _ => apply only_ret
    | |- spec (raise _) _ => apply only_raise
    | |- spec (emit _) _ => apply only_emit; [lines_side H | ]
    | |- spec (await _ _ _) _ => apply only_await; [lines_side H | ]
    | |- spec (set_context true) _ => apply only_set_context_true
    | |- spec (match ?x with _ => _ end) _ => destruct x
    | |- forall _, _ => intros
    | |- anything _ => exact I
    end.

Section Lines.
Context {L : PyLib}.
Variable P : event -> Prop.

Lemma handle_cookie_consent_lines e :
  (forall ev, in_lines 138 148 ev -> P ev) ->
  spec (handle_cookie_consent e) (only P anything).
Proof. intros H. unfold handle_cookie_consent. only_go H. Qed.

Lemma ocr_attempt_lines r :
  (forall ev, in_lines 181 184 ev -> P ev) ->
  spec (ocr_attempt r) (only P anything).
Proof. intros H. unfold ocr_attempt. only_go H. Qed.

Lemma recover_lines r v :
  (forall ev, in_lines 164 201 ev -> P ev) ->
  spec (recover r v) (only P anything).
Proof.
  intros H. unfold recover. destruct v.
  - only_go H.
  - eapply only_bind with (Q1 := anything); [only_go H|]. intros [] _; simpl.
    + eapply only_bind with (Q1 := anything); [only_go H|]. intros _ _.
      eapply only_bind with (Q1 := anything); [only_go H|]. intros _ _.
      eapply only_bind with (Q1 := anything).
      { apply ocr_attempt_lines. intros ev Hev. apply H.
        revert Hev. apply in_lines_mono; lia. }
      intros [solution|] _; only_go H.
    + only_go H.
Qed.

Lemma handle_blocking_page_lines r :
  P (Call 163 ContinueIsVisible) ->
  (forall ev, in_lines 164 201 ev -> P ev) ->
  spec (handle_blocking_page r) (only P anything).
Proof.
  intros H0 H. unfold handle_blocking_page.
  eapply only_bind with (Q1 := anything);
    [by apply only_await|]. intros v _.
  by apply recover_lines.
Qed.

Lemma block_rounds_lines e rounds :
  (forall ev, in_lines 163 201 ev \/ in_lines 235 241 ev -> P ev) ->
  spec (block_rounds e rounds) (only P anything).
Proof.
  intros H. induction rounds as [|i rest IH]; simpl; [only_go H|].
  eapply only_bind with (Q1 := anything); [only_go H|]. intros html _.
  eapply only_bind with (Q1 := anything); [only_go H|]. intros title _.
  destruct (is_page_blocked html title); [|only_go H].
  eapply only_bind with (Q1 := anything); [only_go H|]. intros _ _.
  eapply only_bind with (Q1 := anything).
  { apply handle_blocking_page_lines.
    - apply H. left. unfold in_lines; simpl; lia.
    - intros ev Hev. apply H. left. revert Hev. apply in_lines_mono; lia. }
  intros [] _; simpl; [|only_go H].
  eapply only_bind with (Q1 := anything); [only_go H|]. intros _ _.
  exact IH.
Qed.

End Lines.


(** ** Result records *)

Lemma dict_all_lookup v k : k ∈ RESULT_KEYS -> dict_all v !! k = Some v.
Proof.
  unfold RESULT_KEYS. rewrite !elem_of_cons, elem_of_nil.
  intros [->|[->|[->|[]]]]; reflexivity.
Qed.

Lemma dict_result_lookup a s r :
  dict_result a s r !! "availability"%string = Some a /\
  dict_result a s r !! "average_stars"%string = Some s /\
  dict_result a s r !! "total_reviews"%string = Some r.
Proof. repeat split; reflexivity. Qed.

Lemma sentinel_not_found : is_sentinel (VStr S_NOT_FOUND).
Proof. exists S_NOT_FOUND. split; [done|]. unfold SENTINELS. set_solver. Qed.

Lemma sentinel_error : is_sentinel (VStr S_ERROR).
Proof. exists S_ERROR. split; [done|]. unfold SENTINELS. set_solver. Qed.






Lemma extracted_not_not_found rec : extracted rec -> rec <> not_found_record.
Proof.
  intros (a & s & r & -> & _ & Hs & _) Heq.
  assert (H : dict_result (VStr a) s r !! "average_stars"%string
              = not_found_record !! "average_stars"%string) by by rewrite Heq.
  destruct (dict_result_lookup (VStr a) s r) as (_ & H2 & _).
  rewrite H2 in H. unfold not_found_record in H.
  assert (Hk : "average_stars"%string ∈ RESULT_KEYS)
    by (unfold RESULT_KEYS; set_solver).
  rewrite (dict_all_lookup _ _ Hk) in H.
  destruct Hs as [[q Hq]|Hn]; subst s; [done|]. by vm_compute in H.
Qed.

(** ** The extraction helpers *)

Lemma nonempty_true s : nonempty s = true -> s <> [].
Proof. by destruct s. Qed.

Lemma first_availability_nonempty soup sels :
  first_availability soup sels <> [].
Proof.
  induction sels as [|sel rest IH]; simpl; [done|].
  destruct (select_one soup sel) as [element|]; [|done].
  destruct (nonempty (get_text_strip element)) eqn:Hne; [|done].
  destruct (contains _ _); [done|]. by apply nonempty_true.
Qed.

Section ExtractionFacts.
Context {L : PyLib}.

Lemma stars_from_popover_shape sec s :
  stars_shape s -> stars_shape (stars_from_popover sec s).
Proof.
  intros Hs. unfold stars_from_popover.
  repeat (case_match; try done); left; eauto.
Qed.

Lemma stars_from_icon_shape sec s :
  stars_shape s -> stars_shape (stars_from_icon sec s).
Proof.
  intros Hs. unfold stars_from_icon.
  repeat (case_match; try done); left; eauto.
Qed.

Lemma reviews_from_text_shape sec r :
  reviews_shape r -> reviews_shape (reviews_from_text sec r).
Proof.
  intros Hr. unfold reviews_from_text.
  repeat (case_match; try done); left; eauto.
Qed.

Lemma extract_reviews_info_shape soup :
  stars_shape (fst (extract_reviews_info soup)) /\
  reviews_shape (snd (extract_reviews_info soup)).
Proof.
  unfold extract_reviews_info.
  destruct (select_one soup _) as [sec|]; simpl.
  - split.
    + apply stars_from_icon_shape, stars_from_popover_shape. by right.
    + apply reviews_from_text_shape. by right.
  - split; by right.
Qed.

End ExtractionFacts.

(** ** One attempt *)

Ltac trace_norm :=
  unfold BACKOFF, JITTER; simpl;
  repeat (rewrite <- app_assoc; simpl); try reflexivity.

Section AttemptFacts.
Context {L : PyLib}.

Lemma extract_and_return_spec e :
  spec (extract_and_return e) (only (in_lines 246 253) extracted).
Proof.
  unfold extract_and_return.
  assert (H : forall ev, in_lines 246 253 ev -> in_lines 246 253 ev) by done.
  eapply only_bind with (Q1 := anything); [only_go H|]. intros html _.
  pose proof (extract_reviews_info_shape html) as [Hs Hr].
  destruct (extract_reviews_info html) as [stars reviews]; simpl in *.
  only_go H. exists (extract_availability html), stars, reviews.
  split; [done|]. split; [apply first_availability_nonempty|done].
Qed.

Lemma after_title_spec e title :
  spec (after_title e title)
       (only after_navigation_event
             (fun rec => if re_search_icase NOT_FOUND_RE title
                         then rec = not_found_record else extracted rec)).
Proof.
  unfold after_title.
  assert (H : forall ev, in_lines 227 229 ev -> after_navigation_event ev)
    by (unfold after_navigation_event; tauto).
  destruct (re_search_icase NOT_FOUND_RE title).
  - only_go H. done.
  - eapply only_bind with (Q1 := anything).
    { apply handle_cookie_consent_lines.
      unfold after_navigation_event; tauto. }
    intros _ _.
    eapply only_bind with (Q1 := anything).
    { apply block_rounds_lines. unfold after_navigation_event.
      intros ev [Hev|Hev]; [tauto|]. do 3 right. revert Hev.
      apply in_lines_mono; lia. }
    intros _ _.
    eapply only_weaken; [apply extract_and_return_spec| |done].
    intros ev Hev. do 3 right. revert Hev. apply in_lines_mono; lia.
Qed.

Lemma after_navigation_spec e :
  spec (after_navigation e) (only after_navigation_event attempt_result).
Proof.
  unfold after_navigation.
  assert (H : forall ev, in_lines 227 229 ev -> after_navigation_event ev)
    by (unfold after_navigation_event; tauto).
  eapply only_bind with (Q1 := anything); [only_go H|]. intros title _.
  eapply only_weaken; [apply after_title_spec|done|].
  intros rec Hrec. unfold attempt_result.
  destruct (re_search_icase NOT_FOUND_RE title); [by left|by right].
Qed.

Lemma after_navigation_event_body ev :
  after_navigation_event ev -> body_event ev.
Proof.
  intros [H|[H|[H|H]]]; by eapply in_lines_body.
Qed.

Lemma attempt_body_spec e url a :
  spec (attempt_body e url a) (only body_event attempt_result).
Proof.
  unfold attempt_body.
  assert (H : forall ev, in_lines 212 225 ev -> body_event ev)
    by (intros ev; apply in_lines_body).
  assert (Hafter : spec (after_navigation e) (only body_event attempt_result)).
  { eapply only_weaken; [apply after_navigation_spec| |done].
    apply after_navigation_event_body. }
  eapply only_bind with (Q1 := anything); [only_go H|]. intros _ _.
  eapply only_bind with (Q1 := anything); [only_go H|]. intros _ _.
  eapply only_bind with (Q1 := anything); [only_go H|]. intros _ _.
  eapply only_bind with (Q1 := anything); [only_go H|]. intros _ _.
  eapply only_bind with (Q1 := anything); [only_go H|]. intros _ _.
  eapply only_bind with (Q1 := anything); [only_go H|]. intros [status|] _.
  - destruct (400 <=? status); [|exact Hafter].
    only_go H. by left.
  - exact Hafter.
Qed.

(** An attempt, wherever it starts: its reply, its events between
    [Acquire] and [Release], and whether it set [context]. *)
Lemma attempt_of_run env url a :
  exists tb,
    events_of (attempt_of env url a) = Acquire :: tb ++ [Release] /\
    Forall body_event tb /\
    (forall rec, outcome_of (attempt_of env url a) = Returns rec ->
                 attempt_result rec) /\
    forall st, attempt_of env url a st =
      (outcome_of (attempt_of env url a),
       extend st (context (snd (attempt_of env url a init)))
              (events_of (attempt_of env url a))).
Proof.
  assert (Hs : spec (attempt_of env url a)
                 (fun r _ t => exists tb, t = Acquire :: tb ++ [Release] /\
                    Forall body_event tb /\
                    forall rec, r = Returns rec -> attempt_result rec)).
  { unfold attempt_of. eapply spec_with_sem; [apply attempt_body_spec|].
    intros r b t [Ht Hr]. eauto. }
  destruct (spec_run _ _ Hs) as (b & (tb & Ht & Hq & Hr) & Hrun).
  exists tb. repeat split; [done..|].
  intros st. rewrite (Hrun init). simpl. apply Hrun.
Qed.

(** The retry loop returns what [loop_summary] says. *)
Lemma retry_loop_summary env url attempts st :
  exists b,
    retry_loop env url attempts st =
      (Returns (fst (loop_summary env url attempts)),
       {| context := b;
          trace := trace st ++ snd (loop_summary env url attempts) |}).
Proof.
  revert st. induction attempts as [|a rest IH]; intros st; simpl.
  - exists (context st). unfold ret. rewrite app_nil_r. by destruct st.
  - destruct (attempt_of_run env url a) as (tb & _ & _ & _ & Hrun).
    unfold bind at 1. unfold set_context at 1. unfold try_except.
    fold (attempt_of env url a). rewrite Hrun.
    destruct (outcome_of (attempt_of env url a)) as [rec|ex]; simpl.
    + eexists. reflexivity.
    + unfold attempt_failed, handler_events.
      set (b := context (snd (attempt_of env url a init))).
      unfold bind, emit, get_context, record_event; simpl.
      destruct b; simpl.
      * unfold await, record_event; simpl.
        destruct (a <? MAX_RETRIES)%nat; simpl.
        -- match goal with |- context [retry_loop env url rest ?s] =>
             destruct (IH s) as [b' ->] end.
           destruct (loop_summary env url rest) as [rec t']; simpl.
           exists b'. f_equal. f_equal.
           trace_norm.
        -- unfold ret. eexists. f_equal. f_equal.
           trace_norm.
      * unfold ret at 1.
        destruct (a <? MAX_RETRIES)%nat; simpl.
        -- match goal with |- context [retry_loop env url rest ?s] =>
             destruct (IH s) as [b' ->] end.
           destruct (loop_summary env url rest) as [rec t']; simpl.
           exists b'. f_equal. f_equal.
           trace_norm.
        -- unfold ret. eexists. f_equal. f_equal.
           trace_norm.
Qed.

End AttemptFacts.

(** ** Counting in traces *)

Lemma count_event_app ev t1 t2 :
  count_event ev (t1 ++ t2) = (count_event ev t1 + count_event ev t2)%nat.
Proof. unfold count_event. by rewrite filter_app, length_app. Qed.

Lemma count_event_cons ev x t :
  count_event ev (x :: t) =
    ((if event_eqb ev x then 1 else 0) + count_event ev t)%nat.
Proof.
  unfold count_event. rewrite filter_cons.
  destruct (event_eqb ev x); simpl; repeat case_decide; done.
Qed.

Lemma count_acquire_body t :
  Forall body_event t -> count_event Acquire t = 0%nat.
Proof.
  induction 1 as [|ev t Hev _ IH]; [done|].
  rewrite count_event_cons, IH. by destruct ev.
Qed.

Lemma count_sleep_body lo hi t :
  Forall body_event t -> count_event (Sleep lo hi) t = 0%nat.
Proof.
  induction 1 as [|ev t Hev _ IH]; [done|].
  rewrite count_event_cons, IH. by destruct ev.
Qed.

Lemma before_acquires_app prev t1 t2 :
  before_acquires prev (t1 ++ t2) =
    before_acquires prev t1 ++ before_acquires (prev_after prev t1) t2.
Proof.
  revert prev. induction t1 as [|ev t1 IH]; intros prev; [done|].
  simpl. rewrite IH, <- app_assoc. do 2 f_equal.
  unfold prev_after. destruct t1 as [|ev' t1]; [done|].
  change (last (ev :: ev' :: t1)) with (last (ev' :: t1)).
  destruct (last (ev' :: t1)) eqn:E; [done|]. by apply last_None in E.
Qed.

Lemma before_acquires_body prev t :
  Forall body_event t -> before_acquires prev t = [].
Proof.
  intros H. revert prev. induction H as [|ev t Hev _ IH]; intros prev; [done|].
  simpl. rewrite IH. by destruct ev.
Qed.

Lemma prev_after_snoc prev t ev : prev_after prev (t ++ [ev]) = Some ev.
Proof. unfold prev_after. by rewrite last_snoc. Qed.

Section LoopFacts.
Context {L : PyLib}.

Lemma handler_events_body env url a ex :
  Forall body_event (handler_events env url a ex).
Proof.
  unfold handler_events. destruct (context _); by repeat constructor.
Qed.

(** One attempt in a trace: one [Acquire], no sleep, and what came before
    the attempt is what is before its [Acquire]. *)
Lemma attempt_events_counts env url a :
  attempts_made (events_of (attempt_of env url a)) = 1%nat /\
  (forall lo hi, count_event (Sleep lo hi) (events_of (attempt_of env url a)) = 0%nat) /\
  (forall prev, before_acquires prev (events_of (attempt_of env url a)) = [prev]) /\
  (forall prev, prev_after prev (events_of (attempt_of env url a)) = Some Release).
Proof.
  destruct (attempt_of_run env url a) as (tb & -> & Hq & _ & _).
  repeat split.
  - unfold attempts_made.
    rewrite count_event_cons, count_event_app, count_acquire_body by done.
    done.
  - intros lo hi.
    rewrite count_event_cons, count_event_app, count_sleep_body by done.
    done.
  - intros prev. simpl. rewrite before_acquires_app.
    by rewrite before_acquires_body.
  - intros prev. by rewrite app_comm_cons, prev_after_snoc.
Qed.

(** The loop over the attempts [k, k+1, ..., MAX_RETRIES]. *)
Lemma loop_summary_attempts env url n k :
  (k + n = S MAX_RETRIES)%nat -> (0 < n)%nat ->
  let t := snd (loop_summary env url (seq k n)) in
  (1 <= attempts_made t <= n)%nat /\
  count_event JITTER t = 0%nat /\
  (forall prev, before_acquires prev t =
     prev :: replicate (attempts_made t - 1) (Some BACKOFF)).
Proof.
  change JITTER with (Sleep 1 3).
  revert k. induction n as [|n IH]; intros k Hk Hn; [lia|].
  simpl.
  destruct (attempt_events_counts env url k) as (Hacq & Hsl & Hbef & Hlast).
  destruct (outcome_of (attempt_of env url k)) as [rec|ex]; simpl.
  - rewrite Hacq. split; [lia|]. split; [apply Hsl|].
    intros prev. by rewrite Hbef.
  - pose proof (handler_events_body env url k ex) as Hh.
    destruct (k <? MAX_RETRIES)%nat eqn:Hlt.
    + apply Nat.ltb_lt in Hlt.
      destruct (IH (S k)) as (Hcnt & Hj & Hb); [lia..|].
      destruct (loop_summary env url (seq (S k) n)) as [rec t']; simpl in *.
      unfold attempts_made in *.
      rewrite !count_event_app, Hacq, Hsl,
        (count_acquire_body _ Hh), (count_sleep_body _ _ _ Hh).
      rewrite !count_event_cons. simpl.
      split; [lia|]. split; [lia|].
      intros prev.
      rewrite before_acquires_app, before_acquires_app, Hbef.
      rewrite (before_acquires_body _ _ Hh). simpl.
      rewrite Hb, Nat.sub_0_r.
      destruct (count_event Acquire t') as [|m]; [lia|].
      simpl. by rewrite Nat.sub_0_r.
    + simpl. unfold attempts_made in *.
      rewrite !count_event_app, Hacq, Hsl,
        (count_acquire_body _ Hh), (count_sleep_body _ _ _ Hh).
      rewrite !count_event_cons. simpl.
      split; [unfold count_event; simpl; lia|]. split; [done|].
      intros prev.
      rewrite !before_acquires_app, Hbef, (before_acquires_body _ _ Hh).
      done.
Qed.



(** [scrape_one] is the jitter followed by the loop. *)
Lemma scrape_one_summary env url st :
  exists b,
    scrape_one env url st =
      (Returns (fst (loop_summary env url (seq 1 MAX_RETRIES))),
       {| context := b;
          trace := trace st ++
                   JITTER :: snd (loop_summary env url (seq 1 MAX_RETRIES)) |}).
Proof.
  unfold scrape_one, bind, emit.
  destruct (retry_loop_summary env url (seq 1 MAX_RETRIES)
              (record_event JITTER st)) as [b Hb].
  unfold JITTER in *. rewrite Hb. exists b. f_equal. f_equal.
  simpl. by rewrite <- app_assoc.
Qed.

End LoopFacts.

(* ================================================================== *)
(** * The worker: retries, results, pacing *)
(* ================================================================== *)





(** C9 fails: with a first attempt that times out and a second one that
    goes through, the worker makes two attempts and sleeps the jitter
    once; the second attempt comes straight after the backoff sleep. *)
Lemma jitter_not_before_each_attempt :
  let t := events_of (scrape_one Samples.flaky Samples.URL_A) in
  attempts_made t = 2%nat /\
  count_event JITTER t = 1%nat /\
  before_acquires None t = [Some JITTER; Some BACKOFF] /\
  ~ Forall (fun prev => prev = Some JITTER) (before_acquires None t).
Proof.
  assert (H : before_acquires None
                (events_of (scrape_one Samples.flaky Samples.URL_A))
              = [Some JITTER; Some BACKOFF]) by (vm_compute; reflexivity).
  cbv zeta. rewrite H.
  split; [vm_compute; reflexivity|]. split; [vm_compute; reflexivity|].
  split; [reflexivity|].
  intros Hall. inversion Hall as [|? ? _ Hrest]; subst.
  inversion Hrest as [|? ? Hb _]; subst. discriminate Hb.
Qed.

(** C9, amended. The worker sleeps the jitter of line 207 once, before
    its first attempt; every later attempt comes straight after the
    backoff sleep of line 260. *)
Theorem jitter_once_then_backoff {L : PyLib}
    (env : nat -> AttemptEnv) (url : pyval) (st : state) :
  exists rec b t,
    scrape_one env url st =
      (Returns rec, {| context := b; trace := trace st ++ t |}) /\
    count_event JITTER t = 1%nat /\
    before_acquires None t =
      Some JITTER :: replicate (attempts_made t - 1) (Some BACKOFF).
Proof.
  destruct (scrape_one_summary env url st) as [b Hrun].
  destruct (loop_summary_attempts env url MAX_RETRIES 1) as (_ & Hj & Hb);
    [done | unfold MAX_RETRIES; lia |].
  eexists _, b, _. split; [exact Hrun|].
  split.
  - rewrite count_event_cons, Hj. reflexivity.
  - unfold attempts_made. rewrite count_event_cons.
    change (before_acquires None (JITTER :: ?t)) with
      (before_acquires (Some JITTER) t).
    rewrite Hb. reflexivity.
Qed.

(** ** Absent pages *)

Section NotFound.
Context {L : PyLib}.

(** The attempt up to its request, when the calls before it return. *)
Lemma attempt_body_navigation e url a st :
  reaches_navigation e ->
  attempt_body e url a st =
    match goto_r e with
    | Raises ex => (Raises ex, extend st true (navigation_events e url a))
    | Returns (Some status) =>
        if 400 <=? status then
          (Returns not_found_record,
           extend st true (navigation_events e url a ++
                           [Log (LHttpStatus status); Call 225 ContextClose]))
        else after_navigation e (extend st true (navigation_events e url a))
    | Returns None =>
        after_navigation e (extend st true (navigation_events e url a))
    end.
Proof.
  intros (Hc & Hp & Hs). unfold attempt_body, navigation_events.
  unfold bind at 1. unfold await at 1. rewrite Hc.
  unfold bind at 1. unfold set_context at 1.
  unfold bind at 1. unfold await at 1. rewrite Hp.
  assert (Hst : forall t1 t2, {| context := true; trace := (trace st ++ t1) ++ t2 |}
                = extend st true (t1 ++ t2)).
  { intros. unfold extend. by rewrite orb_true_r, app_assoc. }
  destruct Hs as [Hs|Hs]; rewrite Hs; unfold bind, ret, await, emit,
    record_event; simpl.
  - destruct (goto_r e) as [[status|]|ex]; simpl.
    + destruct (400 <=? status); simpl; unfold extend; simpl;
        rewrite ?orb_true_r; repeat (rewrite <- app_assoc; simpl); done.
    + unfold extend; simpl;
        rewrite ?orb_true_r; repeat (rewrite <- app_assoc; simpl); done.
    + unfold extend; simpl;
        rewrite ?orb_true_r; repeat (rewrite <- app_assoc; simpl); done.
  - destruct (goto_r e) as [[status|]|ex]; simpl.
    + destruct (400 <=? status); simpl; unfold extend; simpl;
        rewrite ?orb_true_r; repeat (rewrite <- app_assoc; simpl); done.
    + unfold extend; simpl;
        rewrite ?orb_true_r; repeat (rewrite <- app_assoc; simpl); done.
    + unfold extend; simpl;
        rewrite ?orb_true_r; repeat (rewrite <- app_assoc; simpl); done.
Qed.




End NotFound.



(** C10. When [page.goto] returns no response object, the attempt goes on
    with the title check of line 227 and what follows it, and issues
    nothing from the status branch (lines 224-225); it returns the
    not-found record exactly when the title is read and matches the
    not-found pattern. *)
Theorem no_response_skips_status_check {L : PyLib}
    (e : AttemptEnv) (url : pyval) (a : nat) (st : state) :
  reaches_navigation e ->
  goto_r e = Returns None ->
  attempt_body e url a st =
    after_navigation e (extend st true (navigation_events e url a)) /\
  (exists rest,
     events_of (attempt_body e url a) =
       navigation_events e url a ++ Call 227 PageTitle :: rest /\
     forall ev, ev ∈ events_of (attempt_body e url a) ->
       line_of ev <> Some 224%nat /\ line_of ev <> Some 225%nat) /\
  (outcome_of (attempt_body e url a) = Returns not_found_record <->
   exists title, nav_title_r e = Returns title /\
                 re_search_icase NOT_FOUND_RE title = true).
Proof.
  intros Hnav Hg.
  assert (Hbody : forall st', attempt_body e url a st' =
            after_navigation e (extend st' true (navigation_events e url a))).
  { intros st'. rewrite attempt_body_navigation by done. by rewrite Hg. }
  split; [apply Hbody|].
  assert (Hlines : forall ev, after_navigation_event ev ->
            line_of ev <> Some 224%nat /\ line_of ev <> Some 225%nat).
  { intros ev. unfold after_navigation_event, in_lines.
    destruct (line_of ev) as [l|]; [|tauto].
    intros H. split; intros [= ->]; lia. }
  assert (Hnavlines : forall ev, ev ∈ navigation_events e url a ->
            line_of ev <> Some 224%nat /\ line_of ev <> Some 225%nat).
  { intros ev. unfold navigation_events.
    destruct (stealth_r e); simpl; rewrite !elem_of_cons, elem_of_nil;
      intros H; repeat destruct H as [->|H]; try done. }
  unfold outcome_of, events_of. rewrite Hbody.
  unfold after_navigation, bind, await.
  remember (navigation_events e url a) as nav eqn:Enav.
  destruct (nav_title_r e) as [title|ex] eqn:Ht.
  - destruct (spec_run _ _ (after_title_spec e title))
      as (b & (Hev & Hres) & Hrun).
    rewrite Hrun. unfold extend, record_event, init.
    cbn [fst snd trace context app]. split.
    + exists (events_of (after_title e title)).
      split; [by rewrite <- app_assoc|].
      intros ev. rewrite !elem_of_app, elem_of_cons, elem_of_nil.
      intros [[Hin|[->|[]]]|Hin]; [by apply Hnavlines|done|].
      apply Hlines. by eapply Forall_forall in Hev.
    + split.
      * intros Hnf. exists title. split; [done|].
        specialize (Hres _ Hnf).
        destruct (re_search_icase NOT_FOUND_RE title); [done|].
        by apply extracted_not_not_found in Hres.
      * intros (title' & [= <-] & Hm).
        specialize (Hres (match outcome_of (after_title e title) with
                          | Returns r => r | Raises _ => not_found_record end)).
        unfold outcome_of, after_title in *. rewrite Hm in *. reflexivity.
  - unfold extend, record_event, init.
    cbn [fst snd trace context app]. split.
    + exists []. split; [done|].
      intros ev. rewrite !elem_of_app, elem_of_cons, elem_of_nil.
      intros [Hin|[->|[]]]; [by apply Hnavlines|done].
    + split; [done|]. by intros (title & [=] & _).
Qed.

(** No response object and an error title: the title check classifies the
    page. *)
Lemma no_response_witness :
  outcome_of (attempt_body Samples.attempt_no_response Samples.URL_A 1)
    = Returns not_found_record.
Proof.
  destruct (no_response_skips_status_check
              Samples.attempt_no_response Samples.URL_A 1 init)
    as (_ & _ & Hiff).
  - repeat split; [reflexivity..|]. right. reflexivity.
  - reflexivity.
  - apply Hiff. exists (cp "Page introuvable"). split; reflexivity.
Defined.

(** ** The recovery loop *)










(** The scenarios of section 8: a page titled "Attention requise" with a
    visible CAPTCHA image that the OCR solves is unblocked in one round and
    the worker returns the extracted data after one attempt; a page that
    stays blocked through both rounds fails the attempt. *)
Example captcha_solved_in_one_attempt :
  outcome_of (scrape_one (Samples.always Samples.attempt_captcha_solved) Samples.URL_A)
    = Returns (dict_result (VStr (cp "En stock")) (VFloat (45 # 10)) (VInt 1234)) /\
  attempts_made (events_of (scrape_one (Samples.always Samples.attempt_captcha_solved)
                                       Samples.URL_A)) = 1%nat /\
  count_event (Call 163 ContinueIsVisible)
    (events_of (scrape_one (Samples.always Samples.attempt_captcha_solved)
                           Samples.URL_A)) = 1%nat.
Proof. vm_compute. repeat split. Qed.

Example still_blocked_after_two_rounds :
  recovery_rounds Samples.round_still_blocked Samples.round_still_blocked
    = Raises (RuntimeError PersistentBlock).
Proof. reflexivity. Qed.

(** C6 fails: on a page that the classifier calls blocked and that shows
    neither a continue control nor a CAPTCHA image, the recovery routine
    answers [False]; the worker raises the failure of line 240 for the
    attempt, and after [MAX_RETRIES] such attempts returns the error
    record. *)
Lemma nothing_to_do_fails_the_attempt :
  let r := Samples.round_nothing_visible in
  let e := Samples.attempt_nothing_visible in
  continue_visible_r r = Returns false /\
  captcha_visible_r r = Returns false /\
  outcome_of (handle_blocking_page r) = Returns false /\
  outcome_of (block_rounds e (seq 0 2)) = Raises (RuntimeError RecoveryFailed) /\
  outcome_of (attempt_body e Samples.URL_A 1) = Raises (RuntimeError RecoveryFailed) /\
  outcome_of (scrape_one (Samples.always e) Samples.URL_A) = Returns error_record.
Proof.
  cbv zeta. repeat split; reflexivity.
Qed.

(** C6, amended. When neither a continue control nor a CAPTCHA image is
    visible, [handle_blocking_page] logs that no CAPTCHA image was found
    and answers [False], as it does for a recovery that failed; the worker,
    which called it on a page classified as blocked, raises the failure of
    line 240 for the attempt. *)
Theorem nothing_visible_is_recovery_failure
    (e : AttemptEnv) (i : nat) (rest : list nat) (st : state) :
  classified (round_env e i) = Returns true ->
  continue_visible_r (round_env e i) = Returns false ->
  captcha_visible_r (round_env e i) = Returns false ->
  handle_blocking_page (round_env e i) st =
    (Returns false,
     extend st false [Call 163 ContinueIsVisible; Call 174 CaptchaIsVisible;
                      Log LNoCaptchaImage]) /\
  block_rounds e (i :: rest) st =
    (Raises (RuntimeError RecoveryFailed),
     extend st false [Call 235 PageContent; Call 236 PageTitle;
                      Log LBlockedDetected;
                      Call 163 ContinueIsVisible; Call 174 CaptchaIsVisible;
                      Log LNoCaptchaImage]).
Proof.
  intros Hc Hv Hi.
  assert (Hh : forall st', handle_blocking_page (round_env e i) st' =
    (Returns false,
     extend st' false [Call 163 ContinueIsVisible; Call 174 CaptchaIsVisible;
                       Log LNoCaptchaImage])).
  { intros st'. unfold handle_blocking_page, recover, bind, await.
    rewrite Hv, Hi. unfold emit, ret, extend, record_event; simpl.
    rewrite orb_false_r. by repeat (rewrite <- app_assoc; simpl). }
  split; [apply Hh|].
  unfold classified in Hc.
  destruct (content_r (round_env e i)) as [html|] eqn:Hcont; [|done].
  destruct (title_r (round_env e i)) as [title|] eqn:Htitle; [|done].
  injection Hc as Hb.
  cbn [block_rounds]. unfold bind at 1. unfold await at 1. rewrite Hcont.
  unfold bind at 1. unfold await at 1. rewrite Htitle, Hb.
  unfold bind at 1. unfold emit at 1.
  unfold bind at 1. rewrite Hh. cbn [negb]. unfold raise.
  unfold extend, record_event; simpl.
  rewrite !orb_false_r. by repeat (rewrite <- app_assoc; simpl).
Qed.

(** The round of [Samples.attempt_nothing_visible]. *)
Lemma nothing_visible_witness :
  fst (block_rounds Samples.attempt_nothing_visible [0%nat; 1%nat] init)
    = Raises (RuntimeError RecoveryFailed).
Proof.
  destruct (nothing_visible_is_recovery_failure
              Samples.attempt_nothing_visible 0 [1%nat] init) as (_ & Heq);
    [reflexivity..|].
  by rewrite Heq.
Defined.

(** ** Classification *)

Lemma sre_fold_swapcase c : sre_fold (swapcase c) = sre_fold c.
Proof.
  assert (Hs :
    (swapcase c = c + 32 /\
       ((65 <= c <= 90) \/ (192 <= c <= 222 /\ c <> 215)))%N \/
    (swapcase c = c - 32 /\
       ((97 <= c <= 122) \/ (224 <= c <= 254 /\ c <> 247)))%N \/
    swapcase c = c).
  { unfold swapcase.
    repeat match goal with
      | |- context [(?a <=? ?b)%N] => destruct (N.leb_spec a b); simpl
      | |- context [(?a =? ?b)%N] => destruct (N.eqb_spec a b); simpl
      end; lia. }
  revert Hs. generalize (swapcase c). intros d Hs. unfold sre_fold.
  repeat match goal with
    | |- context [(?a <=? ?b)%N] => destruct (N.leb_spec a b); simpl
    | |- context [(?a =? ?b)%N] => destruct (N.eqb_spec a b); simpl
    end; lia.
Qed.

Lemma ci_eq_ieq c p : ci_eq c p -> ieq p c = true.
Proof.
  unfold ieq. intros [->| ->]; [|rewrite sre_fold_swapcase];
    apply N.eqb_refl.
Qed.

Lemma starts_with_ci p mid post :
  Forall2 ci_eq mid p -> starts_with ieq p (mid ++ post) = true.
Proof.
  intros H. induction H as [|c a mid p Hc _ IH]; [done|].
  simpl. by rewrite (ci_eq_ieq _ _ Hc), IH.
Qed.

Lemma search_skip eqc p pre s :
  search eqc p s = true -> search eqc p (pre ++ s) = true.
Proof.
  intros H. induction pre as [|c pre IH]; [done|].
  simpl. rewrite IH. apply orb_true_r.
Qed.

Lemma search_occurs_ci p s : occurs_ci p s -> search ieq p s = true.
Proof.
  intros (pre & mid & post & -> & H). apply search_skip.
  destruct (mid ++ post) eqn:E; simpl; rewrite <- E;
    by rewrite starts_with_ci.
Qed.

(** C7. [is_page_blocked] is a function of its two arguments: equal
    arguments give equal classifications; and a title in which "verify" or
    "vérification" occurs, in whatever case, classifies the page as
    blocked whatever the HTML is. *)
Theorem is_page_blocked_pure_and_title_verify
    (html html' : Html) (title title' : pystr) :
  (html = html' -> title = title' ->
   is_page_blocked html title = is_page_blocked html' title') /\
  (occurs_ci VERIFY title \/ occurs_ci VERIFICATION title ->
   is_page_blocked html title = true).
Proof.
  split; [by intros -> ->|].
  intros H. unfold is_page_blocked.
  assert (Hre : re_search_icase CAPTCHA_RE title = true); [|by rewrite Hre].
  unfold re_search_icase, CAPTCHA_RE. apply existsb_exists.
  destruct H as [H|H].
  - exists VERIFY. split; [|by apply search_occurs_ci].
    unfold VERIFY. simpl. tauto.
  - exists VERIFICATION. split; [|by apply search_occurs_ci].
    unfold VERIFICATION. simpl. tauto.
Qed.

(** A title in capitals, over a page with nothing in it. *)
Lemma is_page_blocked_witness :
  is_page_blocked Samples.bare_page (cp "Please VERIFY you are human") = true.
Proof.
  apply (is_page_blocked_pure_and_title_verify
           Samples.bare_page Samples.bare_page _ (cp "Please VERIFY you are human")).
  left. exists (cp "Please "), (cp "VERIFY"), (cp " you are human").
  split; [reflexivity|].
  repeat constructor; by right.
Defined.

(* ================================================================== *)
(** * Chunks and the order of the rows *)
(* ================================================================== *)

Lemma map_fmap {A B} (f : A -> B) (l : list A) : map f l = f <$> l.
Proof. induction l as [|x l IH]; [done|]. csimpl. by rewrite <- IH. Qed.

(** [range_up] yields the [m] multiples it should. *)
Lemma range_up_multiples (m : nat) : forall (fuel : nat) (i stop step : Z),
  0 < step -> (m <= fuel)%nat ->
  stop <= i + Z.of_nat m * step ->
  (m <> 0%nat -> i + (Z.of_nat m - 1) * step < stop) ->
  range_up fuel i stop step =
    (fun k : nat => i + Z.of_nat k * step) <$> seq 0 m.
Proof.
  induction m as [|m IH]; intros fuel i stop step Hstep Hfuel Hhi Hlo.
  - destruct fuel as [|fuel]; [done|]. simpl.
    destruct (Z.ltb_spec i stop); [lia|done].
  - destruct fuel as [|fuel]; [lia|]. simpl.
    destruct (Z.ltb_spec i stop) as [_|Hge]; [|nia].
    rewrite (IH fuel (i + step) stop step); [|lia|lia|nia|nia].
    f_equal; [lia|].
    rewrite <- fmap_S_seq, <- list_fmap_compose.
    apply list_fmap_ext. intros _ k _. simpl. lia.
Qed.

(** The number of chunks for [n] rows in chunks of [c]. *)
Lemma chunk_count_bounds (n c : Z) :
  0 <= n -> 0 < c ->
  let m := (n + c - 1) / c in
  0 <= m <= n /\ c * (m - 1) < n <= c * m.
Proof.
  intros Hn Hc m.
  assert (H1 : c * m <= n + c - 1) by (apply Z.mul_div_le; lia).
  assert (H2 : n + c - 1 < c * (m + 1)).
  { pose proof (Z.mod_pos_bound (n + c - 1) c Hc).
    pose proof (Z.div_mod (n + c - 1) c). unfold m. lia. }
  assert (0 <= m) by (apply Z.div_pos; lia).
  nia.
Qed.

Lemma iloc_slice_chunk {A} (df : list A) (lo size : Z) :
  0 <= lo -> 0 <= size ->
  iloc_slice lo (lo + size) df = take (Z.to_nat size) (drop (Z.to_nat lo) df).
Proof.
  intros Hlo Hsize. unfold iloc_slice, slice_bound.
  destruct (Z.ltb_spec lo 0); [lia|].
  destruct (Z.ltb_spec (lo + size) 0); [lia|].
  destruct (Z.le_ge_cases lo (Z.of_nat (length df))) as [Hle|Hge].
  - rewrite (Z.min_l lo) by done.
    destruct (Z.le_ge_cases (lo + size) (Z.of_nat (length df))) as [Hle'|Hge'].
    + rewrite Z.min_l by done. f_equal. lia.
    + rewrite Z.min_r by done.
      rewrite !take_ge; [done|rewrite length_drop; lia..].
  - rewrite !Z.min_r by lia.
    rewrite !drop_ge by lia. by rewrite !take_nil.
Qed.

Lemma concat_chunks {A} (c m : nat) : forall df : list A,
  (length df <= m * c)%nat ->
  concat ((fun k : nat => take c (drop (k * c) df)) <$> seq 0 m) = df.
Proof.
  induction m as [|m IH]; intros df Hlen.
  - destruct df; [done|simpl in Hlen; lia].
  - simpl. rewrite <- fmap_S_seq, <- list_fmap_compose.
    transitivity (take c df ++ drop c df); [|apply take_drop]. f_equal.
    etransitivity; [|apply (IH (drop c df)); rewrite length_drop; lia].
    f_equal. apply list_fmap_ext. intros _ k _. simpl.
    rewrite drop_drop. first [done | do 2 f_equal; lia].
Qed.

(** The chunker, for a positive size. *)
Lemma chunker_chunks {A} (df : list A) (size : Z) :
  0 < size ->
  let c := Z.to_nat size in
  let m := Z.to_nat ((Z.of_nat (length df) + size - 1) / size) in
  chunker df size = Some ((fun k : nat => take c (drop (k * c) df)) <$> seq 0 m).
Proof.
  intros Hsize c m. unfold chunker, py_range.
  destruct (Z.eqb_spec size 0); [lia|].
  destruct (Z.ltb_spec 0 size); [|lia].
  destruct (chunk_count_bounds (Z.of_nat (length df)) size) as (Hm & Hb);
    [lia|done|].
  rewrite (range_up_multiples m); [|done|lia|lia|lia].
  f_equal. rewrite map_fmap, <- list_fmap_compose.
  apply list_fmap_ext. intros _ k _. simpl.
  rewrite iloc_slice_chunk by lia. unfold c. do 2 f_equal. lia.
Qed.

(** ** Gathering *)

Lemma gather_fill_returns {A} (recs : list A) (completion : list nat) :
  forall slots : list (option A),
  length slots = length recs ->
  exists slots',
    gather_fill (Returns <$> recs) completion slots = Returns slots' /\
    length slots' = length recs /\
    forall i, (i < length recs)%nat ->
      slots' !! i = if decide (i ∈ completion) then Some <$> recs !! i
                    else slots !! i.
Proof.
  induction completion as [|j later IH]; intros slots Hlen;
    cbn [gather_fill].
  - exists slots. split; [done|]. split; [done|].
    intros i _. by rewrite decide_False by (apply not_elem_of_nil).
  - rewrite list_lookup_fmap.
    destruct (recs !! j) as [a|] eqn:Hj; simpl.
    + destruct (IH (<[j := Some a]> slots)) as (slots' & Hrun & Hlen' & Hget).
      { by rewrite length_insert. }
      exists slots'. split; [done|]. split; [done|].
      intros i Hi. rewrite (Hget i Hi).
      destruct (decide (i ∈ later)) as [Hin|Hnin].
      * rewrite decide_True by (rewrite elem_of_cons; auto). done.
      * destruct (decide (i = j)) as [->|Hne].
        -- rewrite decide_True by (rewrite elem_of_cons; auto).
           rewrite list_lookup_insert_eq by lia. by rewrite Hj.
        -- rewrite decide_False by (rewrite elem_of_cons; tauto).
           by rewrite list_lookup_insert_ne.
    + destruct (IH slots Hlen) as (slots' & Hrun & Hlen' & Hget).
      exists slots'. split; [done|]. split; [done|].
      intros i Hi. rewrite (Hget i Hi).
      destruct (decide (i ∈ later)) as [Hin|Hnin].
      * rewrite decide_True by (rewrite elem_of_cons; auto). done.
      * rewrite decide_False; [done|].
        rewrite elem_of_cons. intros [Heq|Hin]; [subst i|done].
        apply lookup_lt_is_Some in Hi. rewrite Hj in Hi. by destruct Hi.
Qed.

(** When every task returns and each finishes once, [gather] returns the
    results in the order of the tasks, whatever the order of completion. *)
Lemma gather_in_task_order {A} (recs : list A) (completion : list nat) :
  completion ≡ₚ seq 0 (length recs) ->
  gather (Returns <$> recs) completion = Some (Returns recs).
Proof.
  intros Hperm. unfold gather. rewrite length_fmap.
  destruct (gather_fill_returns recs completion
              (replicate (length recs) None)) as (slots & -> & Hlen & Hget).
  { by rewrite length_replicate. }
  assert (Hslots : slots = Some <$> recs).
  { apply list_eq. intros i. rewrite list_lookup_fmap.
    destruct (decide (i < length recs)%nat) as [Hi|Hi].
    - rewrite (Hget i Hi). rewrite decide_True; [done|].
      rewrite Hperm. apply elem_of_seq. lia.
    - rewrite !lookup_ge_None_2; [done|lia|lia]. }
  rewrite Hslots.
  assert (Hm : mapM id (Some <$> recs) = Some recs); [|by rewrite Hm].
  apply mapM_Some. clear. induction recs; constructor; done.
Qed.

(** ** Chunks through the workers *)

Section ChunkFacts.
Context {L : PyLib}.

Lemma scrape_one_outcome env url :
  outcome_of (scrape_one env url) = Returns (summary_record env url).
Proof.
  unfold outcome_of. destruct (scrape_one_summary env url init) as [b ->].
  done.
Qed.

Lemma process_chunk_rows w completion (ch : list row) :
  completion ≡ₚ seq 0 (length ch) ->
  process_chunk w completion ch =
    Some (Returns (imap (fun i r => assign_columns r
                           (summary_record (w i) (url_of r))) ch)).
Proof.
  intros Hperm. unfold process_chunk, column.
  set (tasks := imap _ _).
  assert (Htasks : tasks =
    Returns <$> imap (fun i r => summary_record (w i) (url_of r)) ch).
  { unfold tasks. rewrite map_fmap, imap_fmap.
    apply list_eq. intros i.
    rewrite list_lookup_fmap, !list_lookup_imap.
    destruct (ch !! i) as [r|]; [|done]. simpl.
    f_equal. apply scrape_one_outcome. }
  rewrite Htasks, gather_in_task_order by (by rewrite length_imap).
  do 2 f_equal. apply list_eq. intros i.
  rewrite lookup_zip_with, !list_lookup_imap.
  by destruct (ch !! i).
Qed.

Lemma process_all_rows world sched (chunks : list (list row)) : forall idx,
  (forall k ch, chunks !! k = Some ch ->
                sched (idx + k)%nat ≡ₚ seq 0 (length ch)) ->
  process_all world sched idx chunks =
    Some (Returns (imap (fun k ch =>
            imap (fun i r => assign_columns r
                    (summary_record (world (idx + k)%nat i) (url_of r))) ch)
          chunks)).
Proof.
  induction chunks as [|ch rest IH]; intros idx Hsched; [done|].
  cbn [process_all].
  rewrite process_chunk_rows.
  2:{ specialize (Hsched 0%nat ch eq_refl). by rewrite Nat.add_0_r in Hsched. }
  rewrite IH.
  2:{ intros k ch' Hk. specialize (Hsched (S k) ch' Hk).
      by rewrite Nat.add_succ_r in Hsched. }
  rewrite imap_cons, Nat.add_0_r. do 3 f_equal.
  apply imap_ext. intros k ch' _. simpl.
  apply imap_ext. intros i r _. simpl. by rewrite Nat.add_succ_r.
Qed.

(** The rows of the chunks, once processed, are the processed rows of the
    frame, in the order of the frame. *)
Lemma concat_processed world (c m : nat) (df : list row) :
  (0 < c)%nat -> (length df <= m * c)%nat ->
  concat (imap (fun k ch =>
            imap (fun i r => assign_columns r
                    (summary_record (world k i) (url_of r))) ch)
          ((fun k : nat => take c (drop (k * c) df)) <$> seq 0 m))
  = imap (processed_row world c) df.
Proof.
  intros Hc Hlen.
  rewrite <- (concat_chunks c m (imap (processed_row world c) df))
    by (by rewrite length_imap).
  f_equal. apply list_eq. intros k.
  rewrite list_lookup_imap, !list_lookup_fmap.
  destruct (seq 0 m !! k) as [k'|] eqn:Hk; [|done]. simpl.
  apply lookup_seq in Hk as [-> _]. simpl. f_equal.
  apply list_eq. intros i.
  rewrite list_lookup_imap.
  destruct (decide (i < c)%nat) as [Hi|Hi].
  - rewrite !lookup_take_lt, !lookup_drop, list_lookup_imap by done.
    destruct (df !! (k * c + i)%nat) as [r|]; [|done]. simpl.
    assert (Hd : ((k * c + i) / c = k)%nat).
    { rewrite Nat.div_add_l by lia. rewrite Nat.div_small by lia. lia. }
    assert (Hm : ((k * c + i) mod c = i)%nat).
    { rewrite Nat.add_comm, Nat.Div0.mod_add. apply Nat.mod_small. lia. }
    unfold processed_row. by rewrite Hd, Hm.
  - by rewrite !lookup_take_ge by lia.
Qed.

End ChunkFacts.

Lemma assign_columns_other (r : row) (rec : record) k :
  k ∉ RESULT_KEYS -> assign_columns r rec !! k = r !! k.
Proof.
  unfold assign_columns, RESULT_KEYS. rewrite !not_elem_of_cons.
  intros (H1 & H2 & H3 & _). simpl.
  by rewrite !lookup_insert_ne.
Qed.

(** A zero size is the [ValueError] of [range]; a negative size gives no
    chunk at all. *)
Example chunker_size_zero : chunker [1; 2; 3] 0 = None.
Proof. reflexivity. Qed.

Example chunker_size_negative : chunker [1; 2; 3] (-2) = Some [].
Proof. reflexivity. Qed.

Example chunker_five_by_two :
  chunker [1; 2; 3; 4; 5] 2 = Some [[1; 2]; [3; 4]; [5]].
Proof. reflexivity. Qed.

(** C1. For a positive chunk size [size] and a frame of [N] rows, the
    chunker yields [ceil(N / size)] chunks, chunk [k] being the rows
    [k*size, ..., k*size + size - 1] of the frame, and the chunks put end
    to end are the frame.  When every task of every chunk finishes once, in
    whatever order, the run ends with a frame of [N] rows whose row [j] is
    row [j] of the input with the record of its own worker in the three
    result columns; the link column is the one of the input. *)
Theorem chunks_preserve_row_order {L : PyLib}
    (world : nat -> nat -> nat -> AttemptEnv) (sched : nat -> list nat)
    (size : Z) (df : list row) :
  0 < size ->
  (forall k, (k * Z.to_nat size < length df)%nat ->
     sched k ≡ₚ seq 0 (length (take (Z.to_nat size)
                                    (drop (k * Z.to_nat size) df)))) ->
  exists chunks full_df,
    chunker df size = Some chunks /\
    size * (Z.of_nat (length chunks) - 1) < Z.of_nat (length df)
      <= size * Z.of_nat (length chunks) /\
    (forall k, (k < length chunks)%nat ->
       chunks !! k = Some (take (Z.to_nat size) (drop (k * Z.to_nat size) df))) /\
    concat chunks = df /\
    run_chunks world sched size df = Some (Returns full_df) /\
    length full_df = length df /\
    (forall j r, df !! j = Some r ->
       exists rec,
         outcome_of (scrape_one (world (j / Z.to_nat size)%nat
                                       (j mod Z.to_nat size)%nat) (url_of r))
           = Returns rec /\
         full_df !! j = Some (assign_columns r rec)) /\
    column LINK full_df = column LINK df.
Proof.
  intros Hsize Hsched.
  set (c := Z.to_nat size) in *.
  set (m := Z.to_nat ((Z.of_nat (length df) + size - 1) / size)).
  destruct (chunk_count_bounds (Z.of_nat (length df)) size) as (Hm & Hb);
    [lia|done|].
  set (chunks := (fun k : nat => take c (drop (k * c) df)) <$> seq 0 m).
  assert (Hlenchunks : length chunks = m)
    by (unfold chunks; by rewrite length_fmap, length_seq).
  assert (Hcover : (length df <= m * c)%nat) by (unfold m, c; nia).
  assert (Hchunk : forall k, (k < m)%nat ->
            chunks !! k = Some (take c (drop (k * c) df))).
  { intros k Hk. unfold chunks. rewrite list_lookup_fmap.
    by rewrite lookup_seq_lt. }
  exists chunks, (imap (processed_row world c) df).
  split; [apply (chunker_chunks df size Hsize)|].
  split; [rewrite Hlenchunks; unfold m; lia|].
  split; [intros k Hk; apply Hchunk; lia|].
  split; [apply concat_chunks; done|].
  split.
  { unfold run_chunks. rewrite (chunker_chunks df size Hsize).
    fold c m chunks.
    rewrite (process_all_rows world sched chunks 0).
    - simpl. do 2 f_equal. apply concat_processed; [unfold c; lia|done].
    - intros k ch Hk. simpl.
      assert (Hkm : (k < m)%nat).
      { apply lookup_lt_Some in Hk. by rewrite Hlenchunks in Hk. }
      rewrite Hchunk in Hk by done. injection Hk as <-.
      apply Hsched.
      assert (k * c < length df)%nat; [|done].
      unfold m, c in *. nia. }
  split; [by rewrite length_imap|].
  split.
  { intros j r Hj. exists (summary_record (world (j / c)%nat (j mod c)%nat) (url_of r)).
    split; [apply scrape_one_outcome|].
    by rewrite list_lookup_imap, Hj. }
  unfold column. rewrite !map_fmap.
  apply list_eq. intros j. rewrite !list_lookup_fmap, list_lookup_imap.
  destruct (df !! j) as [r|]; [|done]. simpl. f_equal.
  unfold processed_row. rewrite assign_columns_other; [done|].
  unfold RESULT_KEYS, LINK. rewrite !not_elem_of_cons. repeat split; try done.
  apply not_elem_of_nil.
Qed.

(** Three rows in chunks of two, the last task of a chunk finishing
    first, the second row timing out in every attempt. *)
Lemma chunks_three_rows_witness :
  exists full_df,
    run_chunks Samples.world3 Samples.sched3 2 Samples.three_rows
      = Some (Returns full_df) /\
    column LINK full_df = [Samples.URL_A; Samples.URL_B; Samples.URL_C].
Proof.
  destruct (chunks_preserve_row_order
              Samples.world3 Samples.sched3 2 Samples.three_rows)
    as (chunks & full_df & _ & _ & _ & _ & Hrun & _ & _ & Hcol).
  - lia.
  - intros [|[|k]] Hk.
    + apply Permutation_swap.
    + reflexivity.
    + simpl in Hk. lia.
  - exists full_df. split; [exact Hrun|]. rewrite Hcol. reflexivity.
Defined.

(* ================================================================== *)
(** * Workers under the semaphore *)
(* ================================================================== *)

Section Semaphore.
Import Conc.

Lemma count_insert (f : pc -> bool) (ws : list pc) : forall i p p',
  ws !! i = Some p ->
  (length (filter (fun q => f q = true) (<[i := p']> ws))
     + (if f p then 1 else 0)
   = length (filter (fun q => f q = true) ws) + (if f p' then 1 else 0))%nat.
Proof.
  induction ws as [|w ws IH]; intros i p p' Hi; [done|].
  destruct i as [|i]; simpl in *.
  - injection Hi as ->. rewrite !filter_cons.
    destruct (f p), (f p'); simpl; repeat case_decide; simpl; try done; lia.
  - rewrite !filter_cons. specialize (IH i p p' Hi).
    destruct (f w); simpl; repeat case_decide; simpl; try done; lia.
Qed.

Lemma count_pos (f : pc -> bool) (ws : list pc) i p :
  ws !! i = Some p -> f p = true ->
  (0 < length (filter (fun q => f q = true) ws))%nat.
Proof.
  revert i. induction ws as [|w ws IH]; intros i Hi Hp; [done|].
  rewrite filter_cons. destruct i as [|i]; simpl in *.
  - injection Hi as ->. rewrite decide_True by done. simpl. lia.
  - specialize (IH i Hi Hp). case_decide; simpl; lia.
Qed.

(** Every step keeps the balance of permits and sessions. *)
Lemma step_balanced K i o s s' :
  balanced K s -> step i o s = Some s' -> balanced K s'.
Proof.
  intros [Hp Ho]. unfold step, balanced, count_pc in *.
  destruct (workers s !! i) as [p|] eqn:Hi; [|done].
  pose proof (fun p' => count_insert holds_permit (workers s) i p p' Hi) as Hh.
  pose proof (fun p' => count_insert has_session (workers s) i p p' Hi) as Hs.
  pose proof (count_pos has_session (workers s) i p Hi) as Hpos.
  unfold after_failure.
  destruct p as [|a|a|a|a|a|a|]; simpl in *.
  - intros [= <-]; simpl.
    specialize (Hh (AtAcquire 1)). specialize (Hs (AtAcquire 1)).
    simpl in *. lia.
  - destruct (permits s) as [|free] eqn:Hfree; [done|].
    intros [= <-]; simpl.
    specialize (Hh (AtNewContext a)). specialize (Hs (AtNewContext a)).
    simpl in *. lia.
  - destruct o; intros [= <-]; simpl.
    + specialize (Hh (InBody a)). specialize (Hs (InBody a)). simpl in *. lia.
    + specialize (Hh (InBody a)). specialize (Hs (InBody a)). simpl in *. lia.
    + specialize (Hh (if (a <? MAX_RETRIES)%nat then AtBackoff a else Done)).
      specialize (Hs (if (a <? MAX_RETRIES)%nat then AtBackoff a else Done)).
      destruct (a <? MAX_RETRIES)%nat; simpl in *; lia.
  - destruct o; intros [= <-]; simpl.
    + specialize (Hh (InBody a)). specialize (Hs (InBody a)). simpl in *. lia.
    + specialize (Hh (AtCloseInside a)). specialize (Hs (AtCloseInside a)).
      simpl in *. lia.
    + specialize (Hh (AtCloseHandler a)). specialize (Hs (AtCloseHandler a)).
      simpl in *. lia.
  - intros [= <-]; simpl.
    specialize (Hh Done). specialize (Hs Done).
    specialize (Hpos eq_refl). simpl in *. lia.
  - intros [= <-]; simpl.
    specialize (Hh (if (a <? MAX_RETRIES)%nat then AtBackoff a else Done)).
    specialize (Hs (if (a <? MAX_RETRIES)%nat then AtBackoff a else Done)).
    specialize (Hpos eq_refl).
    destruct (a <? MAX_RETRIES)%nat; simpl in *; lia.
  - intros [= <-]; simpl.
    specialize (Hh (AtAcquire (S a))). specialize (Hs (AtAcquire (S a))).
    simpl in *. lia.
  - done.
Qed.

Lemma start_balanced K n : balanced K (start K n).
Proof.
  unfold balanced, start, count_pc; simpl.
  induction n as [|n [IH1 IH2]]; [split; simpl; lia|].
  simpl. rewrite !filter_cons. simpl.
  repeat case_decide; done.
Qed.

(** In every state a run can reach, at most [K] workers hold a permit,
    and the sessions open beyond those of permit holders are sessions that
    a failure handler is closing. *)
Lemma permits_bound_holders K n sched s :
  run_sched sched (start K n) = Some s ->
  (count_pc holds_permit s <= K)%nat /\
  (open_sessions s <= count_pc holds_permit s + count_pc in_handler_close s)%nat.
Proof.
  intros Hrun.
  assert (Hbal : balanced K s).
  { revert Hrun. generalize (start_balanced K n). generalize (start K n).
    induction sched as [|[i o] later IH]; intros s0 Hs0; simpl.
    - by intros [= <-].
    - destruct (step i o s0) as [s1|] eqn:Hstep; [|done].
      apply IH. by eapply step_balanced. }
  destruct Hbal as [Hp Ho]. split; [lia|].
  rewrite Ho. unfold count_pc. clear.
  induction (workers s) as [|w ws IH]; [done|].
  rewrite !filter_cons.
  destruct w; simpl; repeat case_decide; simpl; try done; lia.
Qed.

End Semaphore.

(** The failure path of an attempt in the trace of a worker: the permit is
    given back (the end of [async with sem]) before the handler closes the
    session on line 258. *)
Lemma failed_attempt_closes_after_release {L : PyLib}
    (env : nat -> AttemptEnv) (url : pyval) (ex : exn) :
  outcome_of (attempt_of env url 1) = Raises ex ->
  context (snd (attempt_of env url 1 init)) = true ->
  exists t0 t1,
    events_of (scrape_one env url) =
      t0 ++ [Release; Log (LAttemptFailed 1 ex); Call 258 ContextClose] ++ t1.
Proof.
  intros Hout Hctx. unfold events_of.
  destruct (scrape_one_summary env url init) as [b ->].
  destruct (attempt_of_run env url 1) as (tb & Hev & _ & _ & _).
  change (seq 1 MAX_RETRIES) with (1 :: seq 2 2)%nat.
  cbn [loop_summary]. rewrite Hout.
  change (1 <? MAX_RETRIES)%nat with true. cbn iota.
  destruct (loop_summary env url (seq 2 2)) as [rec t'].
  unfold handler_events. rewrite Hctx, Hev.
  exists (JITTER :: Acquire :: tb), (BACKOFF :: t').
  cbn [snd trace init app]. by repeat (rewrite <- app_assoc; simpl).
Qed.

(** C8, on the code: with six workers in a chunk and [MAX_CONCURRENCY]
    permits, once the navigation of a worker that holds a permit raises,
    its permit is free while its session is still being closed by the
    handler, and the sixth worker opens a session: six sessions are open at
    once.  Before that failure the sixth worker could not get a permit. *)
Theorem sessions_exceed_permits :
  match Conc.run_sched Conc.before_failure_schedule
          (Conc.start MAX_CONCURRENCY 6) with
  | Some s0 =>
      Conc.open_sessions s0 = MAX_CONCURRENCY /\
      Conc.step 5 Conc.Proceeds s0 = None
  | None => False
  end /\
  match Conc.run_sched Conc.overlap_schedule
          (Conc.start MAX_CONCURRENCY 6) with
  | Some s =>
      Conc.workers s !! 0%nat = Some (Conc.AtCloseHandler 1) /\
      Conc.permits s = 0%nat /\
      Conc.open_sessions s = 6%nat /\
      (MAX_CONCURRENCY < Conc.open_sessions s)%nat
  | None => False
  end.
Proof.
  split.
  - vm_compute. split; reflexivity.
  - vm_compute. repeat split. repeat constructor.
Qed.


(* ================================================================== *)
(** * Further properties of the code *)
(* ================================================================== *)

(** ** Availability and ratings *)

Lemma first_availability_skip soup pre rest :
  Forall (fun s => usable_text soup s = None) pre ->
  first_availability soup (pre ++ rest) = first_availability soup rest.
Proof.
  induction 1 as [|s pre Hs _ IH]; [done|].
  simpl. unfold usable_text in Hs.
  destruct (select_one soup s) as [element|]; [|done].
  simpl in Hs.
  destruct (nonempty (get_text_strip element)); [|done].
  destruct (contains _ _); [done|]. done.
Qed.

(** X1. [extract_availability] returns the text of the first selector of
    its list that gives a usable text. *)
Theorem extract_availability_first_usable
    (soup : Html) (pre post : list string) (sel : string) (text : pystr) :
  selectors_to_try = pre ++ sel :: post ->
  Forall (fun s => usable_text soup s = None) pre ->
  usable_text soup sel = Some text ->
  extract_availability soup = text.
Proof.
  intros Hsel Hpre Hu. unfold extract_availability. rewrite Hsel.
  rewrite first_availability_skip by done. simpl.
  unfold usable_text in Hu.
  destruct (select_one soup sel) as [element|]; [|done]. simpl in Hu.
  destruct (nonempty (get_text_strip element)); [|done].
  destruct (contains _ _); [done|]. by injection Hu.
Qed.

(** A teaser first, nothing for the second selector, the state of the
    stock from the third. *)
Lemma extract_availability_first_usable_witness :
  extract_availability MoreSamples.teaser_page =
    cp "Temporairement en rupture de stock.".
Proof.
  apply (extract_availability_first_usable MoreSamples.teaser_page
           (take 2 selectors_to_try) (drop 3 selectors_to_try)
           "#availability > span:first-of-type").
  - reflexivity.
  - repeat constructor; vm_compute; reflexivity.
  - vm_compute. reflexivity.
Defined.

Lemma first_availability_clean soup sels :
  contains (cp "Lire la suite") (first_availability soup sels) = false.
Proof.
  induction sels as [|s rest IH]; [by vm_compute|]. simpl.
  destruct (select_one soup s) as [element|]; [|done].
  destruct (nonempty (get_text_strip element)); [|done].
  by destruct (contains _ (get_text_strip element)) eqn:E.
Qed.

(** X2. What [extract_availability] returns is never empty and never
    holds "Lire la suite"; it is "N/A" or the usable text of one of the
    selectors, and it is "N/A" when no selector gives a usable text. *)
Theorem extract_availability_never_boilerplate (soup : Html) :
  extract_availability soup <> [] /\
  contains (cp "Lire la suite") (extract_availability soup) = false /\
  (extract_availability soup = S_NA \/
   exists sel, sel ∈ selectors_to_try /\
               usable_text soup sel = Some (extract_availability soup)) /\
  (Forall (fun s => usable_text soup s = None) selectors_to_try ->
   extract_availability soup = S_NA).
Proof.
  split; [apply first_availability_nonempty|].
  split; [apply first_availability_clean|].
  split.
  - unfold extract_availability.
    induction selectors_to_try as [|s rest IH]; [by left|]. simpl.
    assert (Hrest : first_availability soup rest = S_NA \/
              exists sel, sel ∈ s :: rest /\
                usable_text soup sel = Some (first_availability soup rest)).
    { destruct IH as [IH|(sel & Hin & Hsel)]; [by left|].
      right. exists sel. split; [by right|done]. }
    destruct (select_one soup s) as [element|] eqn:Hs; [|done].
    destruct (nonempty (get_text_strip element)) eqn:Hne; [|done].
    destruct (contains _ (get_text_strip element)) eqn:Hc; [done|].
    right. exists s. split; [by left|].
    unfold usable_text. by rewrite Hs, Hne, Hc.
  - intros Hall. unfold extract_availability.
    rewrite <- (app_nil_r selectors_to_try).
    by rewrite first_availability_skip.
Qed.

(** X3. [extract_reviews_info] takes the rating from the title of the
    popover when that parses, else from the icon text, else keeps the
    sentinel; the count of reviews comes from the review text alone; with
    no reviews section both are the sentinel. *)
Theorem extract_reviews_info_first_match {L : PyLib} (soup : Html) :
  extract_reviews_info soup =
    match select_one soup
            "#averageCustomerReviews_feature_div, #averageCustomerReviews" with
    | None => (VStr S_NO_RATING, VStr S_NO_RATING)
    | Some reviews_section =>
        (match popover_stars reviews_section with
         | Some f => VFloat f
         | None =>
             match icon_stars reviews_section with
             | Some f => VFloat f
             | None => VStr S_NO_RATING
             end
         end,
         match review_count reviews_section with
         | Some n => VInt n
         | None => VStr S_NO_RATING
         end)
    end.
Proof.
  unfold extract_reviews_info.
  destruct (select_one soup _) as [sec|]; [|done]. f_equal.
  - unfold stars_from_popover, stars_from_icon, popover_stars, icon_stars.
    destruct (tag_select_one sec "#acrPopover") as [popover|]; simpl.
    + destruct (tag_attr popover "title") as [title|]; simpl.
      * destruct (re_search_stars_title _) as [g1|]; simpl.
        -- destruct (py_float g1) as [f|]; simpl; [done|].
           repeat (case_match; simplify_option_eq; try done).
        -- repeat (case_match; simplify_option_eq; try done).
      * repeat (case_match; simplify_option_eq; try done).
    + repeat (case_match; simplify_option_eq; try done).
  - unfold reviews_from_text, review_count.
    repeat (case_match; simplify_option_eq; try done).
Qed.


(** ** Cookie consent and block recovery *)

Lemma handle_cookie_consent_cases (e : AttemptEnv) (st : state) :
  exists b t,
    handle_cookie_consent e st = (Returns b, extend st false t) /\
    (b = true <->
     returns (accept_visible_r e) /\ returns (accept_click_r e) /\
     returns (accept_hidden_r e) /\ returns (accept_pause_r e)) /\
    (count_event (Call 140 AcceptClick) t <= 1)%nat /\
    (raises (accept_visible_r e) ->
     count_event (Call 140 AcceptClick) t = 0%nat) /\
    (accept_visible_r e = Raises PlaywrightTimeoutError ->
     t = [Call 138 AcceptWaitVisible]).
Proof.
  unfold handle_cookie_consent, try_except, bind, await, emit, ret,
    returns, raises.
  assert (Hext : forall t, {| context := context st; trace := trace st ++ t |}
                           = extend st false t).
  { intros t. unfold extend. by rewrite orb_false_r. }
  destruct (accept_visible_r e) as [[]|ex1]; simpl.
  - destruct (accept_click_r e) as [[]|ex2]; simpl.
    + destruct (accept_hidden_r e) as [[]|ex3]; simpl.
      * destruct (accept_pause_r e) as [[]|ex4]; simpl.
        -- eexists true, _. split.
           { unfold record_event; simpl.
             repeat (rewrite <- app_assoc; simpl). apply f_equal, Hext. }
           split; [split; [eauto 10|done]|]. split; [vm_compute; lia|].
           split; [by intros [? ?]|]. done.
        -- destruct ex4; unfold record_event; simpl;
             repeat (rewrite <- app_assoc; simpl); rewrite Hext;
             eexists false, _; (split; [reflexivity|]);
             (split; [split; [done|by intros (_ & _ & _ & [? ?])]|]);
             (split; [vm_compute; lia|]); (split; [by intros [? ?]|]);
             done.
      * destruct ex3; unfold record_event; simpl;
          repeat (rewrite <- app_assoc; simpl); rewrite Hext;
          eexists false, _; (split; [reflexivity|]);
          (split; [split; [done|by intros (_ & _ & [? ?] & _)]|]);
          (split; [vm_compute; lia|]); (split; [by intros [? ?]|]);
          done.
    + destruct ex2; unfold record_event; simpl;
        repeat (rewrite <- app_assoc; simpl); rewrite Hext;
        eexists false, _; (split; [reflexivity|]);
        (split; [split; [done|by intros (_ & [? ?] & _)]|]);
        (split; [vm_compute; lia|]); (split; [by intros [? ?]|]);
        done.
  - destruct ex1; unfold record_event; simpl;
      repeat (rewrite <- app_assoc; simpl); rewrite Hext;
      eexists false, _; (split; [reflexivity|]);
      (split; [split; [done|by intros ([? ?] & _)]|]);
      (split; [vm_compute; lia|]); (split; [intros _; by vm_compute|]);
      done.
Qed.

(** X4. [handle_cookie_consent] never raises: it answers [True] when the
    four calls return and [False] otherwise; it clicks at most once, and
    not at all when the banner does not show up; when the wait for the
    banner times out, that wait is its only call and nothing is logged. *)
Theorem handle_cookie_consent_never_raises (e : AttemptEnv) (st : state) :
  exists b t,
    handle_cookie_consent e st = (Returns b, extend st false t) /\
    (b = true <->
     returns (accept_visible_r e) /\ returns (accept_click_r e) /\
     returns (accept_hidden_r e) /\ returns (accept_pause_r e)) /\
    (count_event (Call 140 AcceptClick) t <= 1)%nat /\
    (raises (accept_visible_r e) ->
     count_event (Call 140 AcceptClick) t = 0%nat) /\
    (accept_visible_r e = Raises PlaywrightTimeoutError ->
     t = [Call 138 AcceptWaitVisible]).
Proof. apply handle_cookie_consent_cases. Qed.

Section CookieFacts.
Context {L : PyLib}.

(** Lines 232-254, after the cookie banner. *)
Lemma after_cookies_run e :
  exists b, forall st,
    (exec block_rounds e (seq 0 2); extract_and_return e) st =
      (outcome_of (exec block_rounds e (seq 0 2); extract_and_return e),
       extend st b (events_of (exec block_rounds e (seq 0 2);
                               extract_and_return e))).
Proof.
  assert (Hs : spec (exec block_rounds e (seq 0 2); extract_and_return e)
                    (only body_event anything)).
  { eapply only_bind with (Q1 := anything).
    - apply block_rounds_lines. intros ev [H|H]; by eapply in_lines_body.
    - intros _ _. eapply only_weaken; [apply extract_and_return_spec| |done].
      apply in_lines_body. }
  destruct (spec_run _ _ Hs) as (b & _ & Hrun). by exists b.
Qed.

Lemma after_title_outcome e title st :
  fst (after_title e title st) =
    if re_search_icase NOT_FOUND_RE title then Returns not_found_record
    else outcome_of (exec block_rounds e (seq 0 2); extract_and_return e).
Proof.
  unfold after_title.
  destruct (re_search_icase NOT_FOUND_RE title); [done|].
  unfold bind at 1.
  destruct (handle_cookie_consent_cases e st) as (b & t & -> & _).
  destruct (after_cookies_run e) as [b' Hrun]. by rewrite Hrun.
Qed.

Lemma after_navigation_outcome e st :
  fst (after_navigation e st) =
    match nav_title_r e with
    | Raises ex => Raises ex
    | Returns title =>
        if re_search_icase NOT_FOUND_RE title then Returns not_found_record
        else outcome_of (exec block_rounds e (seq 0 2); extract_and_return e)
    end.
Proof.
  unfold after_navigation, bind, await.
  destruct (nav_title_r e) as [title|ex]; [|done].
  apply after_title_outcome.
Qed.

(** X5. What an attempt returns or raises does not depend on what the
    cookie banner does: the consent step is best effort. *)
Theorem cookie_consent_does_not_change_outcome
    (e : AttemptEnv) (visible click hidden pause : reply unit)
    (url : pyval) (a : nat) :
  outcome_of (attempt_body (with_cookie_replies e visible click hidden pause)
                           url a)
  = outcome_of (attempt_body e url a).
Proof.
  set (e' := with_cookie_replies e visible click hidden pause).
  assert (Hafter : forall st st',
            fst (after_navigation e' st) = fst (after_navigation e st')).
  { intros st st'. by rewrite !after_navigation_outcome. }
  unfold outcome_of, attempt_body, bind, await, set_context, emit, ret.
  change (new_context_r e') with (new_context_r e).
  change (new_page_r e') with (new_page_r e).
  change (stealth_r e') with (stealth_r e).
  change (goto_r e') with (goto_r e).
  destruct (new_context_r e) as [[]|]; [|done].
  destruct (new_page_r e) as [[]|]; [|done].
  destruct (stealth_r e) as [[[]|]|]; try done.
  - destruct (goto_r e) as [[status|]|]; [|apply Hafter|done].
    destruct (400 <=? status); [done|apply Hafter].
  - destruct (goto_r e) as [[status|]|]; [|apply Hafter|done].
    destruct (400 <=? status); [done|apply Hafter].
Qed.

End CookieFacts.

Ltac run_recovery :=
  unfold cleared, outcome_of, events_of, handle_blocking_page, recover,
    ocr_attempt, try_except, bind, await, emit, ret, raise, returns, raises;
  cbn -[is_page_blocked].

Ltac split_reply r :=
  let u := fresh "u" in
  let ex := fresh "ex" in
  destruct r as [u|ex]; cbn -[is_page_blocked].

(** X6. [handle_blocking_page] answers [True] in two cases only: the
    continue control is visible and the click and the load that follow
    return; or no continue control is visible, a CAPTCHA image is, every
    call of the OCR path returns and the page read afterwards is not
    classified as blocked. *)
Theorem handle_blocking_page_true_iff (r : RoundEnv) :
  cleared r = Returns true <->
  (continue_visible_r r = Returns true /\
   returns (continue_click_r r) /\ returns (continue_load_r r)) \/
  (continue_visible_r r = Returns false /\
   captcha_visible_r r = Returns true /\
   returns (captcha_src_r r) /\ returns (ocr_r r) /\
   returns (fill_r r) /\ returns (submit_r r) /\ returns (post_load_r r) /\
   exists html title,
     post_content_r r = Returns html /\ post_title_r r = Returns title /\
     is_page_blocked html title = false).
Proof.
  run_recovery.
  destruct (continue_visible_r r) as [[]|ex0]; cbn -[is_page_blocked].
  - split_reply (continue_click_r r).
    + split_reply (continue_load_r r).
      * split; [intros _; left; eauto 10|done].
      * split; [done|]. intros [(_ & _ & [? ?])|(? & _)]; done.
    + split; [done|]. intros [(_ & [? ?] & _)|(? & _)]; done.
  - split_reply (captcha_visible_r r).
    2:{ split; [done|]. intros [(? & _)|(_ & ? & _)]; done. }
    destruct u; cbn -[is_page_blocked].
    2:{ split; [done|]. intros [(? & _)|(_ & ? & _)]; done. }
    split_reply (captcha_src_r r).
    2:{ split; [done|]. intros [(? & _)|(_ & _ & [? ?] & _)]; done. }
    split_reply (ocr_r r).
    2:{ split; [done|]. intros [(? & _)|(_ & _ & _ & [? ?] & _)]; done. }
    split_reply (fill_r r).
    2:{ split; [done|]. intros [(? & _)|(_ & _ & _ & _ & [? ?] & _)]; done. }
    split_reply (submit_r r).
    2:{ split; [done|]. intros [(? & _)|(_ & _ & _ & _ & _ & [? ?] & _)]; done. }
    split_reply (post_load_r r).
    2:{ split.
        - by destruct ex.
        - intros [(? & _)|(_ & _ & _ & _ & _ & _ & [? ?] & _)]; done. }
    destruct (post_content_r r) as [html|ex]; cbn -[is_page_blocked].
    2:{ split.
        - by destruct ex.
        - intros [(? & _)|(_ & _ & _ & _ & _ & _ & _ & ? & ? & ? & _)]; done. }
    destruct (post_title_r r) as [title|ex]; cbn -[is_page_blocked].
    2:{ split.
        - by destruct ex.
        - intros [(? & _)|(_ & _ & _ & _ & _ & _ & _ & ? & ? & _ & ? & _)];
            done. }
    destruct (is_page_blocked html title) eqn:Hb; cbn -[is_page_blocked].
    + split; [done|].
      intros [(? & _)|(_ & _ & _ & _ & _ & _ & _ & h & t & [= <-] & [= <-] & Hb')];
        [done|congruence].
    + split; [|done]. intros _. right. eauto 20.
  - split; [done|]. intros [(? & _)|(? & _)]; done.
Qed.

(** X7. How [handle_blocking_page] fails.  With a visible continue
    control, a click or a load that raises gives [False], and neither the
    CAPTCHA image nor the OCR solver is asked.  On the OCR path, a solver
    that raises gives [False]; filling the answer in or submitting it
    passes an exception on; after the submission a timeout gives [False]
    and any other exception is passed on. *)
Theorem handle_blocking_page_failure_modes (r : RoundEnv) :
  (continue_visible_r r = Returns true ->
   (raises (continue_click_r r) \/ raises (continue_load_r r) ->
    cleared r = Returns false) /\
   count_event (Call 174 CaptchaIsVisible)
     (events_of (handle_blocking_page r)) = 0%nat /\
   count_event (Call 181 OcrSolve)
     (events_of (handle_blocking_page r)) = 0%nat) /\
  (continue_visible_r r = Returns false ->
   captcha_visible_r r = Returns true ->
   returns (captcha_src_r r) ->
   (raises (ocr_r r) -> cleared r = Returns false) /\
   (forall solution, ocr_r r = Returns solution ->
      Call 187 (CaptchaFill solution) ∈ events_of (handle_blocking_page r) /\
      (forall ex, fill_r r = Raises ex -> cleared r = Raises ex) /\
      (returns (fill_r r) ->
       (forall ex, submit_r r = Raises ex -> cleared r = Raises ex) /\
       (returns (submit_r r) ->
        forall ex,
          post_load_r r = Raises ex \/
          (returns (post_load_r r) /\ post_content_r r = Raises ex) \/
          (returns (post_load_r r) /\ returns (post_content_r r) /\
           post_title_r r = Raises ex) ->
          cleared r = match ex with
                      | PlaywrightTimeoutError => Returns false
                      | _ => Raises ex
                      end)))).
Proof.
  split.
  - intros Hv. run_recovery. rewrite Hv. cbn -[is_page_blocked].
    split.
    + intros [[ex Hc]|[ex Hl]].
      * by rewrite Hc.
      * rewrite Hl. by destruct (continue_click_r r).
    + destruct (continue_click_r r) as [[]|]; cbn;
        [destruct (continue_load_r r) as [[]|]; cbn|]; by vm_compute.
  - intros Hv Hc [src Hsrc]. run_recovery. rewrite Hv. cbn -[is_page_blocked].
    rewrite Hc. cbn -[is_page_blocked]. rewrite Hsrc. cbn -[is_page_blocked].
    split.
    + intros [ex Ho]. by rewrite Ho.
    + intros solution Ho. rewrite Ho. cbn -[is_page_blocked].
      assert (Hin : forall t,
        Call 187 (CaptchaFill solution) ∈
          [Call 163 ContinueIsVisible; Call 174 CaptchaIsVisible;
           Log LCaptchaDetected; Call 179 CaptchaGetSrc; Call 181 OcrSolve;
           Log LOcrSolution; Call 187 (CaptchaFill solution)] ++ t).
      { intros t. apply elem_of_app. left. set_solver. }
      split.
      { destruct (fill_r r) as [[]|]; cbn -[is_page_blocked]; [|apply (Hin [])].
        destruct (submit_r r) as [[]|]; cbn -[is_page_blocked];
          [|apply (Hin [_])].
        destruct (post_load_r r) as [[]|[]]; cbn -[is_page_blocked];
          try apply (Hin [_; _]); try apply (Hin [_; _; _]).
        destruct (post_content_r r) as [html|[]]; cbn -[is_page_blocked];
          try apply (Hin [_; _; _]); try apply (Hin [_; _; _; _]).
        destruct (post_title_r r) as [title|[]]; cbn -[is_page_blocked];
          try apply (Hin [_; _; _; _]); try apply (Hin [_; _; _; _; _]).
        destruct (is_page_blocked html title); cbn -[is_page_blocked];
          apply (Hin [_; _; _; _; _]). }
      split.
      { intros ex Hf. by rewrite Hf. }
      intros [[] Hf]. rewrite Hf. cbn -[is_page_blocked].
      split.
      { intros ex Hs. by rewrite Hs. }
      intros [[] Hs]. rewrite Hs. cbn -[is_page_blocked].
      intros ex [Hl|[([[] Hl] & Hpc)|([[] Hl] & [html Hpc] & Hpt)]];
        rewrite Hl; cbn -[is_page_blocked].
      * by destruct ex.
      * rewrite Hpc. cbn -[is_page_blocked]. by destruct ex.
      * rewrite Hpc. cbn -[is_page_blocked]. rewrite Hpt.
        cbn -[is_page_blocked]. by destruct ex.
Qed.

(** ** Searching and classifying *)

Lemma starts_with_factor eqc p s :
  starts_with eqc p s = true <->
  exists mid post, s = mid ++ post /\ Forall2 (fun c a => eqc a c = true) mid p.
Proof.
  revert s. induction p as [|a p IH]; intros s; simpl.
  - split; [|done]. intros _. exists [], s. split; [done|constructor].
  - destruct s as [|c s].
    + split; [done|]. intros (mid & post & Hs & H).
      inversion H; subst. done.
    + rewrite andb_true_iff, IH. split.
      * intros (Hc & mid & post & -> & H). exists (c :: mid), post.
        split; [done|]. by constructor.
      * intros (mid & post & Hs & H). inversion H as [|? ? mid' ? Hc H']; subst.
        injection Hs as -> ->. split; [done|]. eauto.
Qed.

Lemma search_factor eqc p s :
  search eqc p s = true <->
  exists pre mid post,
    s = pre ++ mid ++ post /\ Forall2 (fun c a => eqc a c = true) mid p.
Proof.
  induction s as [|c s IH]; simpl; rewrite orb_true_iff, starts_with_factor.
  - split.
    + intros [(mid & post & Hs & H)|]; [|done]. exists [], mid, post.
      split; [exact Hs|exact H].
    + intros (pre & mid & post & Hs & H). left.
      destruct pre; [|done]. simpl in Hs. eauto.
  - rewrite IH. split.
    + intros [(mid & post & Hs & H)|(pre & mid & post & -> & H)].
      * exists [], mid, post. split; [exact Hs|exact H].
      * exists (c :: pre), mid, post. by split.
    + intros (pre & mid & post & Hs & H). destruct pre as [|c' pre].
      * left. simpl in Hs. eauto.
      * right. injection Hs as -> ->. eauto.
Qed.

Lemma folded_Forall2 mid p :
  Forall2 (fun c a => ieq a c = true) mid p <-> map sre_fold mid = map sre_fold p.
Proof.
  split.
  - induction 1 as [|c a mid p Hc _ IH]; [done|]. simpl.
    unfold ieq in Hc. apply N.eqb_eq in Hc. by rewrite Hc, IH.
  - revert p. induction mid as [|c mid IH]; intros [|a p] H; try done.
    injection H as Hc H. constructor; [|by apply IH].
    unfold ieq. rewrite Hc. apply N.eqb_refl.
Qed.

Lemma re_search_icase_folded alts s :
  re_search_icase alts s = true <-> exists p, p ∈ alts /\ occurs_folded p s.
Proof.
  unfold re_search_icase, occurs_folded. rewrite existsb_exists.
  split.
  - intros (p & Hin & Hs). exists p. split; [by apply list_elem_of_In|].
    apply search_factor in Hs as (pre & mid & post & -> & H).
    exists pre, mid, post. split; [done|]. by apply folded_Forall2.
  - intros (p & Hin & pre & mid & post & -> & H). exists p.
    split; [by apply list_elem_of_In|].
    apply search_factor. exists pre, mid, post. split; [done|].
    by apply folded_Forall2.
Qed.

(** X8. A page is classified as blocked exactly when a word of the
    CAPTCHA vocabulary occurs in its title, or the [action] of one of its
    forms holds "validateCaptcha", or the [src] of one of its images holds
    "/captcha/", each up to the case of the letters. *)
Theorem is_page_blocked_iff_marker (html : Html) (title : pystr) :
  is_page_blocked html title = true <->
  (exists w, w ∈ CAPTCHA_RE /\ occurs_folded w title) \/
  (exists action, action ∈ form_actions html /\
                  occurs_folded (cp "validateCaptcha") action) \/
  (exists src, src ∈ img_srcs html /\ occurs_folded (cp "/captcha/") src).
Proof.
  assert (Hone : forall p l,
    existsb (re_search_icase [p]) l = true <->
    exists s, s ∈ l /\ occurs_folded p s).
  { intros p l. rewrite existsb_exists. split.
    - intros (s & Hin & Hs). exists s. split; [by apply list_elem_of_In|].
      apply re_search_icase_folded in Hs as (p' & Hp & Hs).
      apply list_elem_of_singleton in Hp. by subst.
    - intros (s & Hin & Hs). exists s. split; [by apply list_elem_of_In|].
      apply re_search_icase_folded. exists p. split; [|done].
      by apply list_elem_of_singleton. }
  rewrite <- re_search_icase_folded, <- !Hone. unfold is_page_blocked.
  destruct (re_search_icase CAPTCHA_RE title); [by split; [left|]|].
  destruct (existsb (re_search_icase [cp "validateCaptcha"]) _);
    [by split; [right; left|]|].
  destruct (existsb (re_search_icase [cp "/captcha/"]) _);
    [by split; [right; right|]|].
  split; [done|]. intros [|[|]]; done.
Qed.


(** ** Sessions *)











Section SessionFacts.
Context {L : PyLib}.





End SessionFacts.

Section WorkerFacts.
Context {L : PyLib}.




Lemma permit_body tb t' :
  Forall body_event tb ->
  permit_discipline true (tb ++ t') = permit_discipline true t'.
Proof.
  induction 1 as [|ev tb Hev _ IH]; [done|].
  destruct ev; simpl in *; done.
Qed.

Lemma permit_attempt env url a t' :
  permit_discipline false (events_of (attempt_of env url a) ++ t') =
    permit_discipline false t'.
Proof.
  destruct (attempt_of_run env url a) as (tb & -> & Hb & _ & _).
  simpl. rewrite <- app_assoc. by rewrite permit_body.
Qed.

Lemma permit_handler env url a ex t' :
  permit_discipline false (handler_events env url a ex ++ t') =
    permit_discipline false t'.
Proof. unfold handler_events. by destruct (context _). Qed.

Lemma loop_summary_permits env url attempts :
  permit_discipline false (snd (loop_summary env url attempts)) = true.
Proof.
  induction attempts as [|a rest IH]; [done|]. simpl.
  destruct (outcome_of (attempt_of env url a)) as [rec|ex]; simpl.
  - rewrite <- (app_nil_r (events_of _)). by rewrite permit_attempt.
  - destruct (a <? MAX_RETRIES)%nat.
    + destruct (loop_summary env url rest) as [rec t']; simpl in *.
      by rewrite <- !app_assoc, permit_attempt, permit_handler.
    + simpl. by rewrite <- !app_assoc, permit_attempt, permit_handler.
Qed.

End WorkerFacts.






(** X13. The worker and its permit: it takes a permit only when it holds
    none and gives back each permit it took; it never sleeps, for the
    jitter or for a back-off, while it holds a permit; outside a permit the
    only call it awaits is the [context.close()] of the failure handler;
    when it is done it holds no permit. *)
Theorem worker_permit_discipline {L : PyLib}
    (env : nat -> AttemptEnv) (url : pyval) (st : state) :
  exists rec b t,
    scrape_one env url st =
      (Returns rec, {| context := b; trace := trace st ++ t |}) /\
    permit_discipline false t = true.
Proof.
  destruct (scrape_one_summary env url st) as [b Hrun].
  eexists _, b, _. split; [exact Hrun|].
  change (permit_discipline false (JITTER :: ?t)) with
    (permit_discipline false t).
  apply loop_summary_permits.
Qed.

(** ** Chunks, gathering and the frame *)

Lemma chunker_sizes {A} (df : list A) (size : Z) :
  0 < size ->
  exists chunks,
    chunker df size = Some chunks /\
    (forall k ch, chunks !! k = Some ch ->
       (1 <= length ch <= Z.to_nat size)%nat /\
       ((S k < length chunks)%nat -> length ch = Z.to_nat size)) /\
    (chunks = [] <-> df = []).
Proof.
  intros Hsize. eexists. split; [apply (chunker_chunks df size Hsize)|].
  cbv zeta.
  destruct (chunk_count_bounds (Z.of_nat (length df)) size) as (Hm & Hb);
    [lia|done|].
  set (c := Z.to_nat size) in *.
  set (m := Z.to_nat ((Z.of_nat (length df) + size - 1) / size)) in *.
  assert (Hc : (0 < c)%nat) by (unfold c; lia).
  assert (Hlo : (m <> 0 -> (m - 1) * c < length df)%nat) by (unfold m, c; nia).
  assert (Hhi : (length df <= m * c)%nat) by (unfold m, c; nia).
  split.
  - intros k ch. rewrite list_lookup_fmap, length_fmap, length_seq.
    destruct (seq 0 m !! k) as [k'|] eqn:Hk; [|done].
    apply lookup_seq in Hk as [-> Hk]. simpl. intros [= <-].
    rewrite length_take, length_drop. split; [nia|]. intros Hnext. nia.
  - split.
    + intros Hnil. apply (f_equal length) in Hnil.
      rewrite length_fmap, length_seq in Hnil. simpl in Hnil.
      destruct df; [done|]. simpl in *. lia.
    + intros ->. simpl in *. assert (m = 0%nat) as -> by lia. done.
Qed.

(** X14. For a positive size no chunk is empty and none has more than
    [size] rows; every chunk but the last has exactly [size] rows; there is
    no chunk at all exactly when the frame has no row. *)
Theorem chunker_chunk_sizes {A} (df : list A) (size : Z) :
  0 < size ->
  exists chunks,
    chunker df size = Some chunks /\
    (forall k ch, chunks !! k = Some ch ->
       (1 <= length ch <= Z.to_nat size)%nat /\
       ((S k < length chunks)%nat -> length ch = Z.to_nat size)) /\
    (chunks = [] <-> df = []).
Proof. apply chunker_sizes. Qed.

(** Five rows in chunks of two. *)
Lemma chunker_chunk_sizes_witness :
  exists chunks,
    chunker [1; 2; 3; 4; 5] 2 = Some chunks /\
    forall k ch, chunks !! k = Some ch -> (1 <= length ch <= 2)%nat.
Proof.
  destruct (chunker_chunk_sizes [1; 2; 3; 4; 5] 2) as (chunks & Hc & Hs & _).
  - lia.
  - exists chunks. split; [exact Hc|]. intros k ch Hk.
    destruct (Hs k ch Hk) as [H _]. exact H.
Defined.

Lemma chunker_other_sizes {A} (df : list A) (size : Z) :
  (size = 0 -> chunker df size = None) /\
  (size < 0 -> chunker df size = Some []).
Proof.
  split.
  - intros ->. reflexivity.
  - intros Hneg. unfold chunker, py_range.
    destruct (Z.eqb_spec size 0); [lia|].
    destruct (Z.ltb_spec 0 size); [lia|].
    replace (Z.to_nat (0 - Z.of_nat (length df))) with 0%nat by lia.
    reflexivity.
Qed.

(** X15. The chunker outside positive sizes: a size of zero is the
    [ValueError] of [range]; a negative size gives no chunk at all,
    whatever the frame, so that no row would be processed. *)
Theorem chunker_degenerate_sizes {A} (df : list A) (size : Z) :
  (size = 0 -> chunker df size = None) /\
  (size < 0 -> chunker df size = Some []).
Proof. apply chunker_other_sizes. Qed.


Section GatherFacts.
Context {L : PyLib}.



End GatherFacts.


Section FrameFacts.
Context {L : PyLib}.




End FrameFacts.




(** ** The semaphore *)

Section SemaphoreFacts.
Import Conc.

Lemma run_sched_invariant (I : sys -> Prop) (P : nat * outcome -> Prop) :
  (forall i o s s', P (i, o) -> I s -> step i o s = Some s' -> I s') ->
  forall sched s s',
    Forall P sched -> I s -> run_sched sched s = Some s' -> I s'.
Proof.
  intros Hstep sched. induction sched as [|[i o] later IH];
    intros s s' Hall Hs; simpl.
  - by intros [= <-].
  - inversion Hall as [|? ? Hio Hlater]; subst.
    destruct (step i o s) as [s1|] eqn:Hs1; [|done].
    apply IH; [done|]. by eapply Hstep.
Qed.



End SemaphoreFacts.

(** X18. What the semaphore does guarantee, in every state that the
    workers of a chunk can reach under [K] permits: the permits left and
    the workers inside the guarded block add up to [K], so that at most [K]
    workers are inside it; and the sessions open beyond those of the
    workers inside it belong to workers whose failure handler is closing
    them. *)
Theorem semaphore_bounds_guarded_block (K n : nat)
    (sched : list (nat * Conc.outcome)) (s : Conc.sys) :
  Conc.run_sched sched (Conc.start K n) = Some s ->
  (Conc.permits s + Conc.count_pc Conc.holds_permit s = K)%nat /\
  (Conc.count_pc Conc.holds_permit s <= K)%nat /\
  (Conc.open_sessions s <=
     Conc.count_pc Conc.holds_permit s
     + Conc.count_pc Conc.in_handler_close s)%nat.
Proof.
  intros Hrun.
  destruct (permits_bound_holders K n sched s Hrun) as [Hle Hopen].
  split; [|done].
  assert (Hbal : Conc.balanced K s); [|by destruct Hbal].
  apply (run_sched_invariant (Conc.balanced K) (fun _ => True))
    with (sched := sched) (s := Conc.start K n).
  - intros i o s0 s1 _. apply step_balanced.
  - by apply Forall_forall.
  - apply start_balanced.
  - exact Hrun.
Qed.

(** Two workers under one permit: the first one is inside the guarded
    block with its session open, the second one waits. *)
Lemma semaphore_bounds_witness :
  let sched := [(0, Conc.Proceeds); (1, Conc.Proceeds); (0, Conc.Proceeds);
                (0, Conc.Proceeds)]%nat in
  let s := {| Conc.permits := 0; Conc.open_sessions := 1;
              Conc.workers := [Conc.InBody 1; Conc.AtAcquire 1] |} in
  Conc.run_sched sched (Conc.start 1 2) = Some s /\
  (Conc.count_pc Conc.holds_permit s <= 1)%nat.
Proof.
  intros sched s. split; [reflexivity|].
  apply (semaphore_bounds_guarded_block 1 2 sched s). reflexivity.
Defined.



(** ** The loop over the chunks *)




Section MainLoopFacts.
Context {L : PyLib}.


End MainLoopFacts.



(** X21. With a negative size there is no chunk: the browser is launched
    and closed, no worker runs, and nothing is written, whatever the
    frame holds.  With a size of zero the [ValueError] of [range] ends the
    run before the browser is launched. *)
Theorem main_async_degenerate_sizes {L : PyLib}
    (world : nat -> nat -> nat -> AttemptEnv) (sched : nat -> list nat)
    (size : Z) (df : list row) :
  (size < 0 ->
   main_async_output world sched size df =
     Some (Returns None, [LaunchBrowser; BrowserClose; NoResult])) /\
  (size = 0 ->
   main_async_output world sched size df = Some (Raises OtherException, [])).
Proof.
  destruct (chunker_other_sizes df size) as [Hzero Hneg].
  unfold main_async_output. split.
  - intros Hs. by rewrite (Hneg Hs).
  - intros Hs. by rewrite (Hzero Hs).
Qed.
